(** * Operator dashboard client: aggregation cycle and push-event service

    A shallow embedding of the two stateful pieces of the dashboard
    front end:

    - [Dashboard.loadDashboardData], the periodic aggregation cycle of the
      Dashboard page (agents, per-agent tasks, statistics, health);
    - [WebSocketService], the push-event client of services/api
      (connect / disconnect / subscribe / unsubscribe and the four
      transport handlers installed by [connect]).

    JavaScript code with side effects and exceptions is written in a small
    state-and-exception monad [Eff]. The answers of the REST backend, the
    events of the browser transport and its timers, the date parser and
    the callbacks registered by other components are inputs of the model.
    One run of [loadDashboardData] is taken as a whole: cycles that overlap
    in time are not modelled. *)

From Stdlib Require Import ZArith Sorted.
From stdpp Require Import base option list strings gmap.

Open Scope string_scope.
Open Scope list_scope.
Open Scope nat_scope.

(** ** Completions and the effect monad *)

(** A thrown JavaScript value: either an instance of [Error], which
    carries a [message], or any other value. *)
Inductive exn : Type :=
| ErrorObj (message : string)
| Thrown (description : string).

(** How a statement (or an awaited promise) finishes. *)
Inductive completion (A : Type) : Type :=
| Normal (a : A)
| Throw (e : exn).
Arguments Normal {A} a.
Arguments Throw {A} e.

Definition Eff (St A : Type) : Type := St → St * completion A.

Section Eff.
Context {St : Type}.

Definition ret {A} (a : A) : Eff St A := λ s, (s, Normal a).

Definition bind {A B} (m : Eff St A) (k : A → Eff St B) : Eff St B :=
  λ s, match m s with
       | (s', Normal a) => k a s'
       | (s', Throw e) => (s', Throw e)
       end.

Definition throw {A} (e : exn) : Eff St A := λ s, (s, Throw e).

(** [await p] for a promise that settles with [p]. *)
Definition await {A} (p : completion A) : Eff St A := λ s, (s, p).

Definition modify (f : St → St) : Eff St unit := λ s, (f s, Normal tt).

(** try { body } catch (err) { handler err } *)
Definition try_catch {A} (body : Eff St A) (handler : exn → Eff St A) : Eff St A :=
  λ s, match body s with
       | (s', Normal a) => (s', Normal a)
       | (s', Throw e) => handler e s'
       end.

(** try { body } finally { final } *)
Definition try_finally {A} (body : Eff St A) (final : Eff St unit) : Eff St A :=
  λ s, match body s with
       | (s', r) =>
           match final s' with
           | (s'', Normal _) => (s'', r)
           | (s'', Throw e) => (s'', Throw e)
           end
       end.
End Eff.

#[global] Instance Eff_ret {St} : MRet (Eff St) := λ A, @ret St A.
#[global] Instance Eff_bind {St} : MBind (Eff St) := λ A B k m, @bind St A B m k.

(** One line written to the browser console. *)
Inductive LogEntry : Type :=
| console_log (msg : string)
| console_warn (msg : string) (detail : option exn)
| console_error (msg : string) (detail : option exn).

(** ** Data received from the REST backend (services/api) *)

(** The untyped maps ([resources], [parameters], [result]) are never read
    by the code modelled here and are left out of the records. *)
Module Agent.
Record t : Type := mk {
  id : string;
  name : string;
  description : option string;
  type : string;
  capabilities : list string;
  status : string;
  created_at : string;
  updated_at : string
}.
End Agent.

Module Task.
Record t : Type := mk {
  id : string;
  agent_id : string;
  task_type : string;
  status : string;
  error_message : option string;
  created_at : string;
  updated_at : string;
  started_at : option string;
  completed_at : option string
}.
End Task.

Module HealthStatus.
Record t : Type := mk {
  status : string;
  timestamp : string;
  service : string;
  database : option string;
  error : option string
}.
End HealthStatus.

(** What the three endpoints used by the dashboard answer during one
    cycle: [agentApi.getAgents()], [taskApi.getAgentTasks(agentId)] and
    [healthApi.getHealth()]. A rejected promise is a [Throw]. Within a
    cycle the answer of the task endpoint depends on the agent id only. *)
Record Backend : Type := {
  getAgents : completion (list Agent.t);
  getAgentTasks : string → completion (list Task.t);
  getHealth : completion HealthStatus.t
}.

(** ** The Dashboard page *)

Module Dashboard.

Record DashboardStats : Type := {
  totalAgents : nat;
  activeAgents : nat;
  totalTasks : nat;
  completedTasks : nat;
  failedTasks : nat;
  runningTasks : nat
}.

(** The component's [useState] cells, and the console. *)
Record State : Type := {
  stats : DashboardStats;
  agents : list Agent.t;
  recentTasks : list Task.t;
  loading : bool;
  error : option string;
  healthStatus : option HealthStatus.t;
  console : list LogEntry
}.

(** The initial values given to [useState]. *)
Definition initial : State :=
  {| stats := {| totalAgents := 0; activeAgents := 0; totalTasks := 0;
                 completedTasks := 0; failedTasks := 0; runningTasks := 0 |};
     agents := []; recentTasks := []; loading := true; error := None;
     healthStatus := None; console := [] |}.

Definition setStats (v : DashboardStats) : Eff State unit :=
  modify (λ s, {| stats := v; agents := agents s; recentTasks := recentTasks s;
                  loading := loading s; error := error s;
                  healthStatus := healthStatus s; console := console s |}).
Definition setAgents (v : list Agent.t) : Eff State unit :=
  modify (λ s, {| stats := stats s; agents := v; recentTasks := recentTasks s;
                  loading := loading s; error := error s;
                  healthStatus := healthStatus s; console := console s |}).
Definition setRecentTasks (v : list Task.t) : Eff State unit :=
  modify (λ s, {| stats := stats s; agents := agents s; recentTasks := v;
                  loading := loading s; error := error s;
                  healthStatus := healthStatus s; console := console s |}).
Definition setLoading (v : bool) : Eff State unit :=
  modify (λ s, {| stats := stats s; agents := agents s; recentTasks := recentTasks s;
                  loading := v; error := error s;
                  healthStatus := healthStatus s; console := console s |}).
Definition setError (v : option string) : Eff State unit :=
  modify (λ s, {| stats := stats s; agents := agents s; recentTasks := recentTasks s;
                  loading := loading s; error := v;
                  healthStatus := healthStatus s; console := console s |}).
Definition setHealthStatus (v : option HealthStatus.t) : Eff State unit :=
  modify (λ s, {| stats := stats s; agents := agents s; recentTasks := recentTasks s;
                  loading := loading s; error := error s;
                  healthStatus := v; console := console s |}).
Definition add_console (es : list LogEntry) (s : State) : State :=
  {| stats := stats s; agents := agents s; recentTasks := recentTasks s;
     loading := loading s; error := error s;
     healthStatus := healthStatus s; console := console s ++ es |}.
Definition write_console (es : list LogEntry) : Eff State unit :=
  modify (add_console es).

Section Cycle.
(** [Date_getTime s] is [new Date(s).getTime()]: milliseconds since the
    epoch, or [None] for NaN (an unparseable date). *)
Variable Date_getTime : string → option Z.
Variable api : Backend.

(** The comparator passed to [sort]:
    (a, b) => new Date(b.created_at).getTime() - new Date(a.created_at).getTime().
    [None] is NaN. *)
Definition compareFn (a b : Task.t) : option Z :=
  tb ← Date_getTime (Task.created_at b);
  ta ← Date_getTime (Task.created_at a);
  Some (tb - ta)%Z.

(** ECMAScript SortCompare: a NaN comparator result counts as +0. *)
Definition SortCompare (a b : Task.t) : Z := default 0%Z (compareFn a b).

(** [Array.prototype.sort] as a stable sort: [x] is put in front of the
    first element it does not have to follow. For a comparator that is a
    consistent ordering every stable sort returns this list. That is the
    case when every date parses. With a date that does not parse the
    comparator answers NaN for some pairs and is no ordering; ECMAScript
    then leaves the order to the engine, and this list is one arrangement
    of the same tasks, not necessarily the engine's: what is stated about
    the order of the sorted tasks is stated for dates that parse. *)
Fixpoint sort_insert (x : Task.t) (l : list Task.t) : list Task.t :=
  match l with
  | [] => [x]
  | y :: l' => if (SortCompare x y <=? 0)%Z then x :: y :: l' else y :: sort_insert x l'
  end.

Definition Array_sort (l : list Task.t) : list Task.t := foldr sort_insert [] l.

Definition warn_tasks (agent : Agent.t) (err : exn) : LogEntry :=
  console_warn ("Failed to load tasks for agent " +:+ Agent.id agent +:+ ":") (Some err).

(** for (const agent of agentsData) { try { ... push ... } catch { warn } } *)
Fixpoint load_tasks (agentsData : list Agent.t) (allTasks : list Task.t)
  : Eff State (list Task.t) :=
  match agentsData with
  | [] => mret allTasks
  | agent :: rest =>
      allTasks' ← try_catch
        (agentTasks ← await (getAgentTasks api (Agent.id agent));
         mret (allTasks ++ agentTasks))
        (λ err, write_console [warn_tasks agent err];; mret allTasks);
      load_tasks rest allTasks'
  end.

Definition is_active (agent : Agent.t) : Prop :=
  Agent.status agent ∈ ["running"; "idle"].

Definition error_text (err : exn) : string :=
  match err with
  | ErrorObj message => message
  | Thrown _ => "Failed to load dashboard data"
  end.

Definition loadDashboardData : Eff State unit :=
  try_finally
    (try_catch
       (setLoading true;;
        setError None;;
        (* Load agents *)
        agentsData ← await (getAgents api);
        setAgents agentsData;;
        (* Load recent tasks from all agents *)
        allTasks ← load_tasks agentsData [];
        (* sort works in place: allTasks and sortedTasks are one array *)
        let sortedTasks := Array_sort allTasks in
        let allTasks := sortedTasks in
        setRecentTasks (take 10 sortedTasks);;
        (* Calculate statistics *)
        let totalAgents := length agentsData in
        let activeAgents := length (filter is_active agentsData) in
        let totalTasks := length allTasks in
        let completedTasks :=
          length (filter (λ task, Task.status task = "completed") allTasks) in
        let failedTasks :=
          length (filter (λ task, Task.status task = "failed") allTasks) in
        let runningTasks :=
          length (filter (λ task, Task.status task = "running") allTasks) in
        setStats {| totalAgents := totalAgents; activeAgents := activeAgents;
                    totalTasks := totalTasks; completedTasks := completedTasks;
                    failedTasks := failedTasks; runningTasks := runningTasks |};;
        (* Load health status *)
        try_catch
          (health ← await (getHealth api);
           setHealthStatus (Some health))
          (λ err, write_console
                    [console_warn "Failed to load health status:" (Some err)]))
       (λ err, setError (Some (error_text err))))
    (setLoading false).

End Cycle.

(** ** What one cycle computes *)

Section CycleSpec.
Variable Date_getTime : string → option Z.
Variable api : Backend.

(** The task lists of the agents whose fetch succeeded, in agent order. *)
Definition fetched_lists (agentsData : list Agent.t) : list (list Task.t) :=
  omap (λ agent, match getAgentTasks api (Agent.id agent) with
                 | Normal tasks => Some tasks
                 | Throw _ => None
                 end) agentsData.

(** The merged task sequence, in fetch order. *)
Definition merged (agentsData : list Agent.t) : list Task.t :=
  concat (fetched_lists agentsData).

(** The agents whose task fetch failed. *)
Definition fetch_failed (agent : Agent.t) : Prop :=
  match getAgentTasks api (Agent.id agent) with
  | Normal _ => False
  | Throw _ => True
  end.

#[global] Instance fetch_failed_dec agent : Decision (fetch_failed agent) :=
  match getAgentTasks api (Agent.id agent) as r
    return Decision (match r with Normal _ => False | Throw _ => True end)
  with
  | Normal _ => right (λ H, H)
  | Throw _ => left I
  end.

(** The warnings written for them. *)
Definition task_warnings (agentsData : list Agent.t) : list LogEntry :=
  omap (λ agent, match getAgentTasks api (Agent.id agent) with
                 | Normal _ => None
                 | Throw err => Some (warn_tasks agent err)
                 end) agentsData.

Definition health_warnings : list LogEntry :=
  match getHealth api with
  | Normal _ => []
  | Throw err => [console_warn "Failed to load health status:" (Some err)]
  end.

Definition count_status (status : string) (tasks : list Task.t) : nat :=
  length (filter (λ task, Task.status task = status) tasks).

(** The creation time of a task, as the comparator reads it. *)
Definition created (task : Task.t) : option Z := Date_getTime (Task.created_at task).

(** [a] may stand before [b]: both dates parse and [a] is not older. *)
Definition not_older (a b : Task.t) : Prop :=
  match created a, created b with
  | Some ta, Some tb => (tb ≤ ta)%Z
  | _, _ => False
  end.

End CycleSpec.

(** The state a cycle leaves behind. *)
Definition after_cycle (Date_getTime : string → option Z) (api : Backend)
    (s : State) : State :=
  (loadDashboardData Date_getTime api s).1.

(** *** Sample data *)

Definition sample_getTime (date : string) : option Z :=
  if decide (date = "2024-01-01T00:00:00Z") then Some 1704067200000%Z
  else if decide (date = "2024-01-02T00:00:00Z") then Some 1704153600000%Z
  else None.

Definition A1 : Agent.t :=
  Agent.mk "a1" "alpha" None "autonomous" ["search"] "running"
    "2024-01-01T00:00:00Z" "2024-01-01T00:00:00Z".
Definition A2 : Agent.t :=
  Agent.mk "a2" "beta" None "reactive" [] "stopped"
    "2024-01-01T00:00:00Z" "2024-01-02T00:00:00Z".
Definition T1 : Task.t :=
  Task.mk "t1" "a1" "index" "completed" None
    "2024-01-01T00:00:00Z" "2024-01-01T00:00:00Z"
    (Some "2024-01-01T00:00:00Z") (Some "2024-01-01T00:00:00Z").
Definition T2 : Task.t :=
  Task.mk "t2" "a1" "crawl" "running" None
    "2024-01-02T00:00:00Z" "2024-01-02T00:00:00Z"
    (Some "2024-01-02T00:00:00Z") None.
Definition healthy : HealthStatus.t :=
  HealthStatus.mk "healthy" "2024-01-02T00:00:00Z" "api-gateway" None None.

(** Agents A1 and A2; the tasks of A1 are served, the task fetch of A2
    is rejected. *)
Definition api_scenario : Backend :=
  {| getAgents := Normal [A1; A2];
     getAgentTasks := λ agentId,
       if decide (agentId = "a1") then Normal [T1; T2]
       else Throw (ErrorObj "Request failed with status code 500");
     getHealth := Normal healthy |}.

(** The same backend with the health endpoint down. *)
Definition api_health_down : Backend :=
  {| getAgents := getAgents api_scenario;
     getAgentTasks := getAgentTasks api_scenario;
     getHealth := Throw (ErrorObj "Network Error") |}.

(** A backend that cannot be reached. *)
Definition api_unreachable : Backend :=
  {| getAgents := Throw (ErrorObj "Network Error");
     getAgentTasks := λ _, Throw (ErrorObj "Network Error");
     getHealth := Throw (ErrorObj "Network Error") |}.

(** One agent with twelve tasks, created alternately on the first and on
    the second of January. *)
Definition busy_task (id date : string) : Task.t :=
  Task.mk id "a1" "index" "pending" None date date None None.

Definition busy_tasks : list Task.t :=
  [busy_task "k01" "2024-01-01T00:00:00Z"; busy_task "k02" "2024-01-02T00:00:00Z";
   busy_task "k03" "2024-01-01T00:00:00Z"; busy_task "k04" "2024-01-02T00:00:00Z";
   busy_task "k05" "2024-01-01T00:00:00Z"; busy_task "k06" "2024-01-02T00:00:00Z";
   busy_task "k07" "2024-01-01T00:00:00Z"; busy_task "k08" "2024-01-02T00:00:00Z";
   busy_task "k09" "2024-01-01T00:00:00Z"; busy_task "k10" "2024-01-02T00:00:00Z";
   busy_task "k11" "2024-01-01T00:00:00Z"; busy_task "k12" "2024-01-02T00:00:00Z"].

Definition api_busy : Backend :=
  {| getAgents := Normal [A1];
     getAgentTasks := λ _, Normal busy_tasks;
     getHealth := Normal healthy |}.



(** A backend without agents. *)
Definition api_empty : Backend :=
  {| getAgents := Normal [];
     getAgentTasks := λ _, Throw (ErrorObj "Request failed with status code 404");
     getHealth := Normal healthy |}.

End Dashboard.

(** ** The push-event client (services/api, class WebSocketService) *)

Module WebSocketService.

(** A value produced by [JSON.parse]. Numbers are kept as integers: the
    service never inspects the payload beyond its [type] member. *)
#[warnings="-register-all"]
Inductive JSON : Type :=
| JNull
| JBool (b : bool)
| JNumber (n : Z)
| JString (s : string)
| JArray (items : list JSON)
| JObject (members : list (string * JSON)).

Fixpoint member (key : string) (members : list (string * JSON)) : option JSON :=
  match members with
  | [] => None
  | (k, v) :: rest => if decide (k = key) then Some v else member key rest
  end.

(** [data.type]: reading a property of [null] throws a TypeError, a missing
    property reads as [undefined] (here [None]). *)
Definition get_type (data : JSON) : completion (option JSON) :=
  match data with
  | JNull => Throw (ErrorObj "Cannot read properties of null (reading 'type')")
  | JObject members => Normal (member "type" members)
  | _ => Normal None
  end.

(** A registered callback is known by its reference: [indexOf] compares
    function objects by identity. *)
Definition Function : Type := nat.

(** What a callback does to the service when it is invoked: the calls it
    makes to [subscribe] and [unsubscribe], in order, and whether it then
    throws. *)
Inductive Call : Type :=
| call_subscribe (eventType : string) (callback : Function)
| call_unsubscribe (eventType : string) (callback : Function).

Record Behaviour : Type := {
  calls_made : list Call;
  raises : option exn
}.

(** The four [readyState]s of a browser WebSocket. *)
Inductive readyState : Type := CONNECTING | OPEN | CLOSING | CLOSED.

#[global] Instance readyState_eq_dec : EqDecision readyState.
Proof. solve_decision. Defined.

Record State : Type := {
  (** [this.ws]: the current socket, [None] for null *)
  ws : option nat;
  (** [this.listeners] *)
  listeners : gmap string (list Function);
  (** every WebSocket constructed so far; all carry the handlers of [connect] *)
  sockets : list readyState;
  (** pending [setTimeout(() => this.connect(), 5000)] timers *)
  timers : nat;
  console : list LogEntry;
  (** the callbacks invoked so far, with their argument *)
  invoked : list (Function * JSON)
}.

(** [new WebSocketService()] *)
Definition initial : State :=
  {| ws := None; listeners := ∅; sockets := []; timers := 0; console := [];
     invoked := [] |}.

Definition set_ws (v : option nat) (s : State) : State :=
  {| ws := v; listeners := listeners s; sockets := sockets s; timers := timers s;
     console := console s; invoked := invoked s |}.
Definition set_listeners (v : gmap string (list Function)) (s : State) : State :=
  {| ws := ws s; listeners := v; sockets := sockets s; timers := timers s;
     console := console s; invoked := invoked s |}.
Definition set_sockets (v : list readyState) (s : State) : State :=
  {| ws := ws s; listeners := listeners s; sockets := v; timers := timers s;
     console := console s; invoked := invoked s |}.
Definition set_timers (v : nat) (s : State) : State :=
  {| ws := ws s; listeners := listeners s; sockets := sockets s; timers := v;
     console := console s; invoked := invoked s |}.
Definition add_console (e : LogEntry) (s : State) : State :=
  {| ws := ws s; listeners := listeners s; sockets := sockets s; timers := timers s;
     console := console s ++ [e]; invoked := invoked s |}.
Definition add_invoked (listener : Function) (data : JSON) (s : State) : State :=
  {| ws := ws s; listeners := listeners s; sockets := sockets s; timers := timers s;
     console := console s; invoked := invoked s ++ [(listener, data)] |}.

(** *** Methods *)

(** [new WebSocket(wsUrl)]: a fresh socket in state CONNECTING. *)
Definition new_WebSocket : Eff State nat :=
  λ s, (set_sockets (sockets s ++ [CONNECTING]) s, Normal (length (sockets s))).

(** [connect()]. The four handlers assigned to the new socket are
    [onopen], [onmessage], [onclose] and [onerror] below. *)
Definition connect : Eff State unit :=
  sock ← new_WebSocket;
  modify (set_ws (Some sock)).

(** [socket.close()]: a socket that is connecting or open starts closing;
    its close event fires later. *)
Definition start_closing (r : readyState) : readyState :=
  match r with
  | CONNECTING | OPEN => CLOSING
  | CLOSING | CLOSED => r
  end.

Definition WebSocket_close (sock : nat) : Eff State unit :=
  modify (λ s, set_sockets (alter start_closing sock (sockets s)) s).

Definition disconnect : Eff State unit :=
  λ s, match ws s with
       | Some sock => (WebSocket_close sock;; modify (set_ws None)) s
       | None => (s, Normal tt)
       end.

(** [listeners.indexOf(callback)], -1 when absent. *)
Fixpoint indexOf (l : list Function) (callback : Function) : Z :=
  match l with
  | [] => -1
  | f :: l' =>
      if decide (f = callback) then 0
      else let i := indexOf l' callback in
           if (i <? 0)%Z then -1 else (1 + i)%Z
  end.

Definition register (eventType : string) (callback : Function)
    (m : gmap string (list Function)) : gmap string (list Function) :=
  let m := if decide (is_Some (m !! eventType)) then m else <[eventType := []]> m in
  alter (λ l, l ++ [callback]) eventType m.

Definition unregister (eventType : string) (callback : Function)
    (m : gmap string (list Function)) : gmap string (list Function) :=
  match m !! eventType with
  | Some l =>
      let index := indexOf l callback in
      if (-1 <? index)%Z
      then alter (delete (Z.to_nat index)) eventType m   (* splice(index, 1) *)
      else m
  | None => m
  end.

Definition subscribe (eventType : string) (callback : Function) : Eff State unit :=
  modify (λ s, set_listeners (register eventType callback (listeners s)) s).

Definition unsubscribe (eventType : string) (callback : Function) : Eff State unit :=
  modify (λ s, set_listeners (unregister eventType callback (listeners s)) s).

(** *** Handlers *)

Section Handlers.
(** [JSON_parse raw] is [JSON.parse(raw)]; a SyntaxError is a [Throw]. *)
Variable JSON_parse : string → completion JSON.
(** The code of the callbacks other components register. *)
Variable behaviour : Function → JSON → Behaviour.

Definition perform (c : Call) : Eff State unit :=
  match c with
  | call_subscribe eventType callback => subscribe eventType callback
  | call_unsubscribe eventType callback => unsubscribe eventType callback
  end.

Fixpoint perform_all (cs : list Call) : Eff State unit :=
  match cs with
  | [] => mret tt
  | c :: cs' => perform c;; perform_all cs'
  end.

(** [listener(data)] *)
Definition invoke (listener : Function) (data : JSON) : Eff State unit :=
  modify (add_invoked listener data);;
  perform_all (calls_made (behaviour listener data));;
  match raises (behaviour listener data) with
  | Some e => throw e
  | None => mret tt
  end.

(** [listeners.forEach(listener => listener(data))] on the array stored
    under [eventType]. The array is the one held by the map, not a copy:
    [forEach] fixes the number of indices [len] when it starts and reads
    index [k] of the array as it is when the index is reached; an index
    that is no longer present is skipped. [n] is [len - k]. *)
Fixpoint forEach (n k : nat) (eventType : string) (data : JSON) : Eff State unit :=
  match n with
  | 0 => mret tt
  | S n' =>
      λ s, match listeners s !! eventType ≫= (λ l, l !! k) with
           | Some listener =>
               (invoke listener data;; forEach n' (S k) eventType data) s
           | None => forEach n' (S k) eventType data s
           end
  end.

(** [this.listeners.get(eventType) || []] then [forEach]: only a string
    can be a key of the map; without an entry the loop runs over a fresh
    empty array. *)
Definition dispatch (eventType : option JSON) (data : JSON) : Eff State unit :=
  λ s, match eventType with
       | Some (JString topic) =>
           match listeners s !! topic with
           | Some l => forEach (length l) 0 topic data s
           | None => (s, Normal tt)
           end
       | _ => (s, Normal tt)
       end.

Definition onopen : Eff State unit :=
  modify (add_console (console_log "WebSocket connected")).

Definition onmessage (raw : string) : Eff State unit :=
  try_catch
    (data ← await (JSON_parse raw);
     eventType ← await (get_type data);
     dispatch eventType data)
    (λ error, modify (add_console
                        (console_error "Error parsing WebSocket message:" (Some error)))).

Definition setTimeout_connect : Eff State unit :=
  modify (λ s, set_timers (S (timers s)) s).

Definition onclose : Eff State unit :=
  modify (add_console (console_log "WebSocket disconnected"));;
  (* Attempt to reconnect after 5 seconds *)
  setTimeout_connect.

Definition onerror : Eff State unit :=
  modify (add_console (console_error "WebSocket error:" None)).

(** *** The event loop *)

Inductive Event : Type :=
| CallConnect
| CallDisconnect
| CallSubscribe (eventType : string) (callback : Function)
| CallUnsubscribe (eventType : string) (callback : Function)
| SocketOpen (sock : nat)
| SocketMessage (sock : nat) (raw : string)
| SocketError (sock : nat)
| SocketClose (sock : nat)
| TimerElapsed.

(** Whether the browser can deliver the event. *)
Definition enabled (ev : Event) (s : State) : bool :=
  match ev with
  | CallConnect | CallDisconnect | CallSubscribe _ _ | CallUnsubscribe _ _ => true
  | SocketOpen sock => bool_decide (sockets s !! sock = Some CONNECTING)
  | SocketMessage sock _ => bool_decide (sockets s !! sock = Some OPEN)
  | SocketError sock | SocketClose sock =>
      bool_decide (is_Some (sockets s !! sock) ∧ sockets s !! sock ≠ Some CLOSED)
  | TimerElapsed => bool_decide (0 < timers s)
  end.

(** What the browser changes before it runs the handler. *)
Definition deliver (ev : Event) (s : State) : State :=
  match ev with
  | SocketOpen sock => set_sockets (<[sock := OPEN]> (sockets s)) s
  | SocketClose sock => set_sockets (<[sock := CLOSED]> (sockets s)) s
  | TimerElapsed => set_timers (pred (timers s)) s
  | _ => s
  end.

Definition handler (ev : Event) : Eff State unit :=
  match ev with
  | CallConnect => connect
  | CallDisconnect => disconnect
  | CallSubscribe eventType callback => subscribe eventType callback
  | CallUnsubscribe eventType callback => unsubscribe eventType callback
  | SocketOpen _ => onopen
  | SocketMessage _ raw => onmessage raw
  | SocketError _ => onerror
  | SocketClose _ => onclose
  | TimerElapsed => connect
  end.

Definition step (ev : Event) (s : State) : option State :=
  if enabled ev s then Some (handler ev (deliver ev s)).1 else None.

Fixpoint run (evs : list Event) (s : State) : option State :=
  match evs with
  | [] => Some s
  | ev :: evs' => step ev s ≫= run evs'
  end.

End Handlers.

(** *** The connection states of the specification *)

Inductive ConnectionState : Type :=
| Disconnected | Connecting | Connected | ReconnectScheduled.

(** The service keeps no state variable; this reads the specification's
    state off [this.ws], the socket's [readyState] and the pending timers. *)
Definition connectionState (s : State) : ConnectionState :=
  match ws s ≫= (λ sock, sockets s !! sock) with
  | Some CONNECTING => Connecting
  | Some OPEN => Connected
  | _ => if decide (0 < timers s) then ReconnectScheduled else Disconnected
  end.

(** The number of transports opened so far. *)
Definition opened (s : State) : nat := length (sockets s).

(** *** One dispatch pass, call by call *)

Section Pass.
Variable behaviour : Function → JSON → Behaviour.

(** The effect of one call on the registry. *)
Definition apply_call (m : gmap string (list Function)) (c : Call)
    : gmap string (list Function) :=
  match c with
  | call_subscribe eventType callback => register eventType callback m
  | call_unsubscribe eventType callback => unregister eventType callback m
  end.

(** The state after [listener(data)] has run (or has run up to its throw). *)
Definition invoke_state (data : JSON) (s : State) (listener : Function) : State :=
  set_listeners
    (foldl apply_call (listeners s) (calls_made (behaviour listener data)))
    (add_invoked listener data s).

(** A callback that, called with [data], does not unsubscribe anything
    from [topic] and returns normally. It may subscribe, to any topic, and
    unsubscribe from other topics. *)
Definition leaves_pass_alone (topic : string) (data : JSON) (listener : Function) : Prop :=
  (∀ callback, call_unsubscribe topic callback ∉ calls_made (behaviour listener data)) ∧
  raises (behaviour listener data) = None.

(** The list of [topic] in the registry still starts with [l]. *)
Definition live_prefix (topic : string) (l : list Function)
    (m : gmap string (list Function)) : Prop :=
  ∃ l', m !! topic = Some l' ∧ l `prefix_of` l'.

End Pass.

(** *** Sample data *)

Definition quote : string :=
  String (Ascii.Ascii false true false false false true false false) EmptyString.

(** The text of a frame whose type is agent_status. *)
Definition status_frame : string :=
  "{" +:+ quote +:+ "type" +:+ quote +:+ ":" +:+ quote +:+ "agent_status" +:+ quote +:+ "}".

Definition status_data : JSON := JObject [("type", JString "agent_status")].

(** A parser that knows this one frame. *)
Definition sample_parse (raw : string) : completion JSON :=
  if decide (raw = status_frame) then Normal status_data
  else Throw (ErrorObj "Unexpected token in JSON").

(** Callbacks that only record that they were called. *)
Definition plain_callbacks (listener : Function) (data : JSON) : Behaviour :=
  {| calls_made := []; raises := None |}.

(** Callback 0 is a one-shot listener: it unsubscribes itself when called. *)
Definition one_shot_callbacks (listener : Function) (data : JSON) : Behaviour :=
  match listener with
  | 0 => {| calls_made := [call_unsubscribe "agent_status" 0]; raises := None |}
  | _ => {| calls_made := []; raises := None |}
  end.

(** Callback 0 subscribes callback 2 to the topic it is called for. *)
Definition subscribing_callbacks (listener : Function) (data : JSON) : Behaviour :=
  match listener with
  | 0 => {| calls_made := [call_subscribe "agent_status" 2]; raises := None |}
  | _ => {| calls_made := []; raises := None |}
  end.

(** Callback 0 throws. *)
Definition throwing_callbacks (listener : Function) (data : JSON) : Behaviour :=
  match listener with
  | 0 => {| calls_made := []; raises := Some (ErrorObj "render failed") |}
  | _ => {| calls_made := []; raises := None |}
  end.

(** The service right after [connect()], and after the open event. *)
Definition s_connecting : State :=
  {| ws := Some 0; listeners := ∅; sockets := [CONNECTING]; timers := 0;
     console := []; invoked := [] |}.
Definition s_connected : State :=
  {| ws := Some 0; listeners := ∅; sockets := [OPEN]; timers := 0;
     console := [console_log "WebSocket connected"]; invoked := [] |}.

(** Two callbacks subscribed to agent_status on an open connection. *)
Definition two_subscribers : list Event :=
  [CallSubscribe "agent_status" 0; CallSubscribe "agent_status" 1;
   CallConnect; SocketOpen 0].

(** The service after [two_subscribers]. *)
Definition s_two_subscribers : State :=
  {| ws := Some 0; listeners := {["agent_status" := [0; 1]]}; sockets := [OPEN];
     timers := 0; console := [console_log "WebSocket connected"]; invoked := [] |}.

(** Callbacks 1, 0 and 3 subscribed to agent_status, in this order. *)
Definition s_three_subscribers : State :=
  {| ws := Some 0; listeners := {["agent_status" := [1; 0; 3]]}; sockets := [OPEN];
     timers := 0; console := [console_log "WebSocket connected"]; invoked := [] |}.

End WebSocketService.

(** ** The rest of the Dashboard page *)

Module DashboardView.
Import Dashboard.

(** One bar of the task chart. *)
Record ChartItem : Type := { name : string; value : nat }.

(** [taskStatusData]: the three counters, without the bars of height 0. *)
Definition taskStatusData (stats : DashboardStats) : list ChartItem :=
  filter (λ item, 0 < value item)
    [ {| name := "Completed"; value := completedTasks stats |};
      {| name := "Running"; value := runningTasks stats |};
      {| name := "Failed"; value := failedTasks stats |} ].

(** The effect of [useEffect]: a cycle when the page is mounted and one at
    every tick of the 30 s interval, each against what the backend answers
    at that time. The cycles are run one after the other. *)
Definition run_cycles (Date_getTime : string → option Z) (apis : list Backend)
    (s : State) : State :=
  foldl (λ s api, after_cycle Date_getTime api s) s apis.

(** The cells of the page fit together. *)
Definition consistent (s : State) : Prop :=
  totalAgents (stats s) = length (agents s) ∧
  activeAgents (stats s) ≤ totalAgents (stats s) ∧
  completedTasks (stats s) + failedTasks (stats s) + runningTasks (stats s)
    ≤ totalTasks (stats s) ∧
  length (recentTasks s) = 10 `min` totalTasks (stats s).

End DashboardView.

(** ** Counting sockets and events of the push-event client *)

Module WebSocketAccounting.
Import WebSocketService.

#[global] Instance Event_eq_dec : EqDecision Event.
Proof. solve_decision. Defined.

(** The sockets that have not closed yet. *)
Definition live (s : State) : nat :=
  length (filter (λ r, r ≠ CLOSED) (sockets s)).

(** The calls of [connect()] made by the caller, and the reconnect timers
    that elapsed, in a sequence of events. *)
Definition connects (evs : list Event) : nat :=
  length (filter (λ ev, ev = CallConnect) evs).
Definition elapsed (evs : list Event) : nat :=
  length (filter (λ ev, ev = TimerElapsed) evs).

(** [this.ws] is null or the socket constructed last. *)
Definition current_is_newest (s : State) : Prop :=
  ws s = None ∨ (0 < opened s ∧ ws s = Some (opened s - 1)).

(** *** Sample data *)

(** Connect, disconnect, reconnect through the timer, and the second
    socket fails. *)
Definition reconnecting : list Event :=
  [CallConnect; SocketOpen 0; CallDisconnect; SocketClose 0; TimerElapsed;
   SocketError 1; SocketClose 1].

Definition s_reconnected : State :=
  {| ws := Some 1; listeners := ∅; sockets := [CLOSED; CLOSED]; timers := 1;
     console := [console_log "WebSocket connected";
                 console_log "WebSocket disconnected";
                 console_error "WebSocket error:" None;
                 console_log "WebSocket disconnected"];
     invoked := [] |}.

(** Two [connect()] calls, both sockets open, then [disconnect()]. *)
Definition s_second_closing : State :=
  {| ws := None; listeners := ∅; sockets := [OPEN; CLOSING]; timers := 0;
     console := [console_log "WebSocket connected";
                 console_log "WebSocket connected"];
     invoked := [] |}.

End WebSocketAccounting.

(** ** The HTTP client (services/api, the axios instance and its interceptors) *)

Module HttpClient.

(** The two things of the browser the interceptors touch: [localStorage]
    and the target last assigned to [window.location.href], if any. *)
Record Browser : Type := {
  localStorage : gmap string string;
  location_href : option string
}.

Record RequestConfig : Type := {
  url : string;
  method : string;
  headers : gmap string string
}.

Record Response : Type := {
  status : Z;
  data : WebSocketService.JSON
}.

(** The error axios rejects with; [response] is absent when no answer
    arrived. *)
Record AxiosError : Type := {
  message : string;
  response : option Response
}.

Definition set_header (name value : string) (config : RequestConfig) : RequestConfig :=
  {| url := url config; method := method config;
     headers := <[name := value]> (headers config) |}.

(** The request interceptor. [localStorage.getItem] answers null for a
    missing key; null and the empty string are falsy. *)
Definition onRequest (config : RequestConfig) (b : Browser) : RequestConfig :=
  match localStorage b !! "authToken" with
  | Some token =>
      if decide (token = "") then config
      else set_header "Authorization" ("Bearer " +:+ token) config
  | None => config
  end.

(** The response interceptor for rejections: the new browser state and the
    error the returned promise rejects with. *)
Definition onResponseError (error : AxiosError) (b : Browser) : Browser * AxiosError :=
  if decide (status <$> response error = Some 401%Z) then
    (* Handle unauthorized access *)
    ({| localStorage := delete "authToken" (localStorage b);
        location_href := Some "/login" |}, error)
  else (b, error).

(** One request through the instance: axios runs the request interceptor,
    hands the configuration to the transport, and passes a rejection
    through the response interceptor; a response is passed on as it is.
    [transport] is what the network does with the configuration sent. *)
Definition request (transport : RequestConfig → Response + AxiosError)
    (config : RequestConfig) (b : Browser) : Browser * (Response + AxiosError) :=
  match transport (onRequest config b) with
  | inl response => (b, inl response)
  | inr error =>
      let '(b', error') := onResponseError error b in (b', inr error')
  end.

(** *** Sample data *)

Definition signed_in : Browser :=
  {| localStorage := {["authToken" := "s3cr3t"; "theme" := "dark"]};
     location_href := None |}.

Definition get_agents : RequestConfig :=
  {| url := "/agents"; method := "get";
     headers := {["Content-Type" := "application/json"]} |}.

Definition unauthorized : AxiosError :=
  {| message := "Request failed with status code 401";
     response := Some {| status := 401; data := WebSocketService.JNull |} |}.

Definition network_error : AxiosError :=
  {| message := "Network Error"; response := None |}.

End HttpClient.

(** ** Health and metrics of single services (services/api) *)

Module ServiceApi.

(** What [axios.get] is called with. A name that is not in the table of
    URLs but is a property of [Object.prototype] reads as a value that is
    not a string. *)
Inductive Target : Type :=
| Url (url : string)
| NotAUrl (property : string).

Section Lookup.
(** The property names every object inherits from [Object.prototype]. *)
Variable inherited : string → bool.

Fixpoint own (table : list (string * string)) (key : string) : option string :=
  match table with
  | [] => None
  | (k, v) :: rest => if decide (k = key) then Some v else own rest key
  end.

(** [serviceUrls[service]]; [None] is undefined. *)
Definition property (table : list (string * string)) (key : string) : option Target :=
  match own table key with
  | Some url => Some (Url url)
  | None => if inherited key then Some (NotAUrl key) else None
  end.

Definition healthUrls : list (string * string) :=
  [("agent-manager", "http://localhost:8000/health");
   ("agent-runtime", "http://localhost:8001/health")].

Definition metricsUrls : list (string * string) :=
  [("api-gateway", "http://localhost:8080/metrics");
   ("agent-manager", "http://localhost:8000/metrics");
   ("agent-runtime", "http://localhost:8001/metrics")].

(** The state is the list of [axios.get] calls made so far; [answer] is
    what each call settles with, the response data or a rejection. A URL
    of the tables is never the empty string, so [!url] holds for
    undefined only. *)
Definition getServiceHealth (answer : Target → completion HealthStatus.t)
    (service : string) : Eff (list Target) HealthStatus.t :=
  match property healthUrls service with
  | None => throw (ErrorObj ("Unknown service: " +:+ service))
  | Some url =>
      modify (λ requests, requests ++ [url]);;
      await (answer url)
  end.

(** The same with the table of metrics URLs (and an Accept header). *)
Definition getMetrics (answer : Target → completion string)
    (service : string) : Eff (list Target) string :=
  match property metricsUrls service with
  | None => throw (ErrorObj ("Unknown service: " +:+ service))
  | Some url =>
      modify (λ requests, requests ++ [url]);;
      await (answer url)
  end.

End Lookup.

(** The properties of [Object.prototype] in ECMAScript. *)
Definition standard_prototype (key : string) : bool :=
  bool_decide (key ∈ ["constructor"; "hasOwnProperty"; "isPrototypeOf";
                      "propertyIsEnumerable"; "toLocaleString"; "toString";
                      "valueOf"; "__proto__"; "__defineGetter__";
                      "__defineSetter__"; "__lookupGetter__"; "__lookupSetter__"]).

End ServiceApi.

(** ** The Agents page (pages/Agents) *)

Module AgentsPage.

Record AgentConfig : Type := {
  name : string;
  description : option string;
  type : string;
  capabilities : list string;
  resources : list (string * string);
  parameters : option (list (string * string))
}.

(** The empty form. *)
Definition blank : AgentConfig :=
  {| name := ""; description := Some ""; type := "autonomous"; capabilities := [];
     resources := [("memory", "1GB"); ("cpu", "1 core")]; parameters := Some [] |}.

(** The calls made to [agentApi]. *)
Inductive Request : Type :=
| GetAgents
| CreateAgent (config : AgentConfig)
| DeleteAgent (id : string).

(** What [agentApi] answers while one handler runs. *)
Record AgentApi : Type := {
  getAgents : completion (list Agent.t);
  createAgent : AgentConfig → completion Agent.t;
  deleteAgent : string → completion unit
}.

(** The [useState] cells of the page, and the requests sent so far. *)
Record State : Type := {
  agents : list Agent.t;
  loading : bool;
  error : option string;
  createDialogOpen : bool;
  newAgent : AgentConfig;
  requests : list Request
}.

Definition initial : State :=
  {| agents := []; loading := true; error := None; createDialogOpen := false;
     newAgent := blank; requests := [] |}.

Definition setAgents (v : list Agent.t) : Eff State unit :=
  modify (λ s, {| agents := v; loading := loading s; error := error s;
                  createDialogOpen := createDialogOpen s; newAgent := newAgent s;
                  requests := requests s |}).
Definition setLoading (v : bool) : Eff State unit :=
  modify (λ s, {| agents := agents s; loading := v; error := error s;
                  createDialogOpen := createDialogOpen s; newAgent := newAgent s;
                  requests := requests s |}).
Definition setError (v : option string) : Eff State unit :=
  modify (λ s, {| agents := agents s; loading := loading s; error := v;
                  createDialogOpen := createDialogOpen s; newAgent := newAgent s;
                  requests := requests s |}).
Definition setCreateDialogOpen (v : bool) : Eff State unit :=
  modify (λ s, {| agents := agents s; loading := loading s; error := error s;
                  createDialogOpen := v; newAgent := newAgent s;
                  requests := requests s |}).
Definition setNewAgent (v : AgentConfig) : Eff State unit :=
  modify (λ s, {| agents := agents s; loading := loading s; error := error s;
                  createDialogOpen := createDialogOpen s; newAgent := v;
                  requests := requests s |}).
Definition send (r : Request) : Eff State unit :=
  modify (λ s, {| agents := agents s; loading := loading s; error := error s;
                  createDialogOpen := createDialogOpen s; newAgent := newAgent s;
                  requests := requests s ++ [r] |}).

(** err instanceof Error ? err.message : fallback *)
Definition message_or (fallback : string) (err : exn) : string :=
  match err with
  | ErrorObj message => message
  | Thrown _ => fallback
  end.

Section Handlers.
Variable api : AgentApi.

Definition loadAgents : Eff State unit :=
  try_finally
    (try_catch
       (setLoading true;;
        setError None;;
        send GetAgents;;
        data ← await (getAgents api);
        setAgents data)
       (λ err, setError (Some (message_or "Failed to load agents" err))))
    (setLoading false).

(** The handler reads [newAgent] as the page shows it when the button is
    pressed. *)
Definition handleCreateAgent : Eff State unit :=
  λ s,
    try_catch
      (send (CreateAgent (newAgent s));;
       await (createAgent api (newAgent s));;
       setCreateDialogOpen false;;
       setNewAgent blank;;
       loadAgents)
      (λ err, setError (Some (message_or "Failed to create agent" err)))
      s.

(** [confirmed] is the answer of [window.confirm]. *)
Definition handleDeleteAgent (confirmed : bool) (id : string) : Eff State unit :=
  if confirmed then
    try_catch
      (send (DeleteAgent id);;
       await (deleteAgent api id);;
       loadAgents)
      (λ err, setError (Some (message_or "Failed to delete agent" err)))
  else mret tt.

End Handlers.

(** *** Sample data *)

Definition draft : AgentConfig :=
  {| name := "indexer"; description := Some "indexes documents"; type := "reactive";
     capabilities := ["search"]; resources := [("memory", "1GB"); ("cpu", "1 core")];
     parameters := Some [] |}.

(** The page with the dialog open and a draft typed in. *)
Definition editing : State :=
  {| agents := [Dashboard.A1]; loading := false; error := None;
     createDialogOpen := true; newAgent := draft; requests := [GetAgents] |}.

(** A backend that refuses to create or delete, and one that does both. *)
Definition refusing : AgentApi :=
  {| getAgents := Normal [Dashboard.A1];
     createAgent := λ _, Throw (ErrorObj "Request failed with status code 422");
     deleteAgent := λ _, Throw (ErrorObj "Request failed with status code 404") |}.
Definition obliging : AgentApi :=
  {| getAgents := Normal [Dashboard.A1; Dashboard.A2];
     createAgent := λ _, Normal Dashboard.A2;
     deleteAgent := λ _, Normal tt |}.

End AgentsPage.

(** ** The capabilities field of the create dialog (pages/Agents) *)

Module Capabilities.

Section Parse.
(** A string is a list of UTF-16 code units; [white] tells the code units
    that [trim] removes (white space and line terminators), [comma] is the
    code unit of the comma. The development works for any alphabet. *)
Context {char : Type} `{EqDecision char}.
Variable white : char → bool.
Variable comma : char.

(** [value.split(',')]: the pieces between the commas; the empty string
    has one empty piece. *)
Fixpoint split (value : list char) : list (list char) :=
  match value with
  | [] => [[]]
  | c :: rest =>
      if decide (c = comma) then [] :: split rest
      else match split rest with
           | piece :: pieces => (c :: piece) :: pieces
           | [] => [[c]]
           end
  end.

Fixpoint trimStart (s : list char) : list char :=
  match s with
  | [] => []
  | c :: rest => if white c then trimStart rest else s
  end.

Definition trimEnd (s : list char) : list char := reverse (trimStart (reverse s)).

(** [cap.trim()] *)
Definition trim (s : list char) : list char := trimEnd (trimStart s).

(** e.target.value.split(',').map(cap => cap.trim()).filter(cap => cap) *)
Definition parse_capabilities (value : list char) : list (list char) :=
  filter (λ cap, cap ≠ []) (trim <$> split value).

(** A capability as the parser delivers it: not empty, without comma, and
    with no white space at either end. *)
Definition clean (cap : list char) : Prop :=
  cap ≠ [] ∧ (comma ∉ cap) ∧
  (∀ c, head cap = Some c → white c = false) ∧
  (∀ c, last cap = Some c → white c = false).

(** [caps.join(sep)] *)
Fixpoint join (sep : list char) (caps : list (list char)) : list char :=
  match caps with
  | [] => []
  | [cap] => cap
  | cap :: rest => cap ++ sep ++ join sep rest
  end.

End Parse.

(** *** The alphabet of JavaScript *)

(** WhiteSpace and LineTerminator of ECMAScript, as code units. *)
Definition js_white (c : N) : bool :=
  orb (bool_decide (c ∈ [9; 10; 11; 12; 13; 32; 160; 5760; 8232; 8233; 8239; 8287;
                         12288; 65279]%N))
      (andb (N.leb 8192 c) (N.leb c 8202)).

Definition js_comma : N := 44%N.

(** The code units of "code_generation, data_analysis" and of its two
    capabilities. *)
Definition code_generation : list N :=
  [99; 111; 100; 101; 95; 103; 101; 110; 101; 114; 97; 116; 105; 111; 110]%N.
Definition data_analysis : list N :=
  [100; 97; 116; 97; 95; 97; 110; 97; 108; 121; 115; 105; 115]%N.

End Capabilities.
(** * Facts about the aggregation cycle *)

Module DashboardFacts.
Import Dashboard.

Section CycleFacts.
Variable Date_getTime : string → option Z.
Variable api : Backend.

#[local] Abbreviation merged := (merged api).
#[local] Abbreviation task_warnings := (task_warnings api).
#[local] Abbreviation health_warnings := (health_warnings api).
#[local] Abbreviation Array_sort := (Array_sort Date_getTime).

Lemma add_console_app es1 es2 s :
  add_console es2 (add_console es1 s) = add_console (es1 ++ es2) s.
Proof. unfold add_console; simpl. by rewrite app_assoc. Qed.

Lemma add_console_nil s : add_console [] s = s.
Proof. destruct s; unfold add_console; simpl. by rewrite app_nil_r. Qed.

Lemma load_tasks_spec agentsData : ∀ allTasks s,
  load_tasks api agentsData allTasks s =
    (add_console (task_warnings agentsData) s, Normal (allTasks ++ merged agentsData)).
Proof.
  induction agentsData as [|agent rest IH]; intros allTasks s.
  - simpl. unfold Dashboard.merged, Dashboard.task_warnings, mret, Eff_ret, ret; simpl.
    by rewrite add_console_nil, app_nil_r.
  - cbn [load_tasks]. unfold mbind, Eff_bind, bind, try_catch, await.
    unfold Dashboard.merged, fetched_lists, Dashboard.task_warnings in *. cbn [omap list_omap].
    destruct (getAgentTasks api (Agent.id agent)) as [tasks|err]; simpl.
    + rewrite IH. by rewrite <- app_assoc.
    + rewrite IH. by rewrite add_console_app.
Qed.

(** The state left by a cycle whose agent fetch succeeded. *)
Theorem cycle_success agentsData s :
  getAgents api = Normal agentsData →
  loadDashboardData Date_getTime api s =
    ({| stats :=
          {| totalAgents := length agentsData;
             activeAgents := length (filter is_active agentsData);
             totalTasks := length (Array_sort (merged agentsData));
             completedTasks :=
               count_status "completed" (Array_sort (merged agentsData));
             failedTasks :=
               count_status "failed" (Array_sort (merged agentsData));
             runningTasks :=
               count_status "running" (Array_sort (merged agentsData)) |};
        agents := agentsData;
        recentTasks := take 10 (Array_sort (merged agentsData));
        loading := false;
        error := None;
        healthStatus := match getHealth api with
                        | Normal health => Some health
                        | Throw _ => healthStatus s
                        end;
        console := console s ++ task_warnings agentsData ++ health_warnings |},
     Normal tt).
Proof.
  intros Hagents.
  unfold loadDashboardData, try_finally, try_catch at 1.
  unfold mbind, Eff_bind, bind, await, setLoading, setError, setAgents, modify.
  rewrite Hagents. rewrite load_tasks_spec. simpl.
  unfold try_catch, Dashboard.health_warnings, bind, await.
  destruct (getHealth api) as [health|err]; simpl.
  - by rewrite app_nil_r.
  - by rewrite app_assoc.
Qed.

(** The state left by a cycle whose agent fetch failed. *)
Theorem cycle_failure err s :
  getAgents api = Throw err →
  loadDashboardData Date_getTime api s =
    ({| stats := stats s; agents := agents s; recentTasks := recentTasks s;
        loading := false; error := Some (error_text err);
        healthStatus := healthStatus s; console := console s |},
     Normal tt).
Proof.
  intros Hagents.
  unfold loadDashboardData, try_finally, try_catch at 1.
  unfold mbind, Eff_bind, bind, await, setLoading, setError, modify.
  by rewrite Hagents.
Qed.

End CycleFacts.

(** ** The sort of the merged tasks *)

Section SortFacts.
Variable Date_getTime : string → option Z.

#[local] Abbreviation created := (created Date_getTime).
#[local] Abbreviation not_older := (not_older Date_getTime).
#[local] Abbreviation sort_insert := (sort_insert Date_getTime).
#[local] Abbreviation Array_sort := (Array_sort Date_getTime).
#[local] Abbreviation SortCompare := (SortCompare Date_getTime).

Lemma SortCompare_created x y tx ty :
  created x = Some tx → created y = Some ty → SortCompare x y = (ty - tx)%Z.
Proof.
  unfold Dashboard.created, Dashboard.SortCompare, compareFn. intros Hx Hy.
  by rewrite Hy, Hx.
Qed.


Lemma sort_insert_Permutation x l : sort_insert x l ≡ₚ x :: l.
Proof.
  induction l as [|y l IH]; simpl; [done|].
  destruct (SortCompare x y <=? 0)%Z; [done|].
  rewrite IH. apply Permutation_swap.
Qed.

Lemma Array_sort_Permutation l : Array_sort l ≡ₚ l.
Proof.
  induction l as [|x l IH]; simpl; [done|].
  unfold Dashboard.Array_sort in *; simpl.
  by rewrite sort_insert_Permutation, IH.
Qed.

Lemma Array_sort_length l : length (Array_sort l) = length l.
Proof. by rewrite Array_sort_Permutation. Qed.

Lemma count_status_sort status l :
  count_status status (Array_sort l) = count_status status l.
Proof. unfold count_status. by rewrite Array_sort_Permutation. Qed.

Lemma not_older_trans a b c : not_older a b → not_older b c → not_older a c.
Proof.
  unfold Dashboard.not_older.
  destruct (created a), (created b), (created c); try done. lia.
Qed.

Lemma sort_insert_sorted x l :
  is_Some (created x) → Forall (λ t, is_Some (created t)) l →
  StronglySorted not_older l → StronglySorted not_older (sort_insert x l).
Proof.
  intros [tx Hx] Hvalid Hsorted.
  induction Hsorted as [|y l Hl IH Hy]; simpl.
  - repeat constructor.
  - apply Forall_cons in Hvalid as [[ty Hty] Hvalid].
    rewrite (SortCompare_created x y tx ty) by done.
    destruct (Z.leb_spec (ty - tx) 0) as [Hle|Hgt].
    + assert (Hxy : not_older x y).
      { unfold Dashboard.not_older. rewrite Hx, Hty. lia. }
      constructor; [by constructor|].
      constructor; [done|].
      eapply Forall_impl; [exact Hy|]. intros z Hz. by eapply not_older_trans.
    + constructor; [by apply IH|].
      rewrite sort_insert_Permutation. constructor; [|done].
      unfold Dashboard.not_older. rewrite Hx, Hty. lia.
Qed.

Lemma Array_sort_sorted l :
  Forall (λ t, is_Some (created t)) l → StronglySorted not_older (Array_sort l).
Proof.
  induction 1 as [|x l Hx Hl IH]; unfold Dashboard.Array_sort in *; simpl.
  - constructor.
  - apply sort_insert_sorted; [done| |done].
    fold (Array_sort l). by rewrite Array_sort_Permutation.
Qed.






End SortFacts.

(** ** The claims about the aggregation cycle *)

Section Claims.
Variable Date_getTime : string → option Z.

#[local] Abbreviation after_cycle := (after_cycle Date_getTime).
#[local] Abbreviation Array_sort := (Array_sort Date_getTime).
#[local] Abbreviation created := (created Date_getTime).
#[local] Abbreviation not_older := (not_older Date_getTime).

(** C4. When the agent fetch at the start of a cycle fails, the cycle
    publishes nothing: statistics, agents, recent tasks and health keep
    their earlier values. The failure is reported in the [error] cell
    (the promise of the cycle itself is fulfilled), and a later cycle
    whose agent fetch succeeds leaves exactly the state it would have
    left without the failed cycle, with [error] cleared. *)
Theorem agent_fetch_failure_keeps_snapshot api api' err agentsData s :
  getAgents api = Throw err →
  getAgents api' = Normal agentsData →
  stats (after_cycle api s) = stats s ∧
  agents (after_cycle api s) = agents s ∧
  recentTasks (after_cycle api s) = recentTasks s ∧
  healthStatus (after_cycle api s) = healthStatus s ∧
  error (after_cycle api s) = Some (error_text err) ∧
  loading (after_cycle api s) = false ∧
  (loadDashboardData Date_getTime api s).2 = Normal tt ∧
  after_cycle api' (after_cycle api s) = after_cycle api' s ∧
  error (after_cycle api' (after_cycle api s)) = None ∧
  agents (after_cycle api' (after_cycle api s)) = agentsData.
Proof.
  intros Hfail Hok. unfold Dashboard.after_cycle.
  rewrite (cycle_failure Date_getTime api err s Hfail).
  rewrite !(cycle_success Date_getTime api' agentsData _ Hok). simpl.
  repeat split.
Qed.

Lemma fetched_lists_spec api agentsData :
  Forall2 (λ agent tasks, getAgentTasks api (Agent.id agent) = Normal tasks)
          (filter (λ agent, ¬ fetch_failed api agent) agentsData)
          (fetched_lists api agentsData).
Proof.
  induction agentsData as [|agent rest IH]; [constructor|].
  rewrite filter_cons. unfold fetched_lists in *. cbn [omap list_omap].
  destruct (decide (¬ fetch_failed api agent)) as [Hok|Hfail];
    unfold fetch_failed in *;
    destruct (getAgentTasks api (Agent.id agent)) as [tasks|e] eqn:E;
    try tauto.
  by constructor.
Qed.

Lemma task_warnings_length api agentsData :
  length (task_warnings api agentsData) =
  length (filter (fetch_failed api) agentsData).
Proof.
  induction agentsData as [|agent rest IH]; [done|].
  rewrite filter_cons. unfold task_warnings in *. cbn [omap list_omap].
  destruct (decide (fetch_failed api agent)) as [Hfail|Hok];
    unfold fetch_failed in *;
    destruct (getAgentTasks api (Agent.id agent)) as [tasks|e] eqn:E;
    try tauto.
  simpl. by rewrite IH.
Qed.

Lemma failed_complement_length api agentsData :
  length (filter (λ agent, ¬ fetch_failed api agent) agentsData) =
  length agentsData - length (filter (fetch_failed api) agentsData).
Proof.
  pose proof (filter_app_complement (fetch_failed api) agentsData) as H.
  apply Permutation_length in H. rewrite length_app in H. lia.
Qed.

(** C5. When the task fetch fails for exactly K of the N agents, the loop
    over the agents finishes normally, writes K warnings, and returns the
    concatenation, in agent order, of the task lists answered for the
    other N - K agents; the cycle then publishes its snapshot (no error,
    the agents, the statistics and the recent tasks of that merged list). *)
Theorem partial_task_failures_tolerated api agentsData s K :
  getAgents api = Normal agentsData →
  length (filter (fetch_failed api) agentsData) = K →
  (∀ s0, load_tasks api agentsData [] s0 =
           (add_console (task_warnings api agentsData) s0,
            Normal (merged api agentsData))) ∧
  merged api agentsData = concat (fetched_lists api agentsData) ∧
  Forall2 (λ agent tasks, getAgentTasks api (Agent.id agent) = Normal tasks)
          (filter (λ agent, ¬ fetch_failed api agent) agentsData)
          (fetched_lists api agentsData) ∧
  length (fetched_lists api agentsData) = length agentsData - K ∧
  length (task_warnings api agentsData) = K ∧
  (loadDashboardData Date_getTime api s).2 = Normal tt ∧
  error (after_cycle api s) = None ∧
  loading (after_cycle api s) = false ∧
  agents (after_cycle api s) = agentsData ∧
  totalTasks (stats (after_cycle api s)) = length (merged api agentsData) ∧
  recentTasks (after_cycle api s) = take 10 (Array_sort (merged api agentsData)) ∧
  Array_sort (merged api agentsData) ≡ₚ merged api agentsData.
Proof.
  intros Hok HK. unfold Dashboard.after_cycle.
  rewrite (cycle_success Date_getTime api agentsData s Hok). simpl.
  split_and!; try done.
  - intros s0. by rewrite load_tasks_spec.
  - apply fetched_lists_spec.
  - rewrite <- HK, <- failed_complement_length.
    symmetry. eapply Forall2_length, fetched_lists_spec.
  - by rewrite task_warnings_length.
  - apply Array_sort_length.
  - apply Array_sort_Permutation.
Qed.


Lemma is_active_iff agent :
  is_active agent ↔ Agent.status agent = "running" ∨ Agent.status agent = "idle".
Proof. unfold is_active. rewrite !elem_of_cons, elem_of_nil. tauto. Qed.

(** C7. The statistics of a published snapshot count the whole agent
    set and the whole merged task sequence, not its first 10 entries:
    all agents, the agents whose status is running or idle, all merged
    tasks, and the merged tasks by status. For agents A1 (running) and A2
    (stopped), where A1 has tasks T1 (completed) and T2 (running, created
    after T1) and the task fetch of A2 throws, the snapshot has 2 agents,
    1 active, 2 tasks, 1 completed, 1 running, 0 failed, and the recent
    tasks are T2, T1. *)
Theorem stats_from_full_sets api agentsData s :
  getAgents api = Normal agentsData →
  stats (after_cycle api s) =
    {| totalAgents := length agentsData;
       activeAgents :=
         length (filter (λ agent, Agent.status agent = "running" ∨
                                  Agent.status agent = "idle") agentsData);
       totalTasks := length (merged api agentsData);
       completedTasks := count_status "completed" (merged api agentsData);
       failedTasks := count_status "failed" (merged api agentsData);
       runningTasks := count_status "running" (merged api agentsData) |} ∧
  (∀ A1 A2 T1 T2 err t1 t2,
     agentsData = [A1; A2] →
     Agent.status A1 = "running" → Agent.status A2 = "stopped" →
     getAgentTasks api (Agent.id A1) = Normal [T1; T2] →
     getAgentTasks api (Agent.id A2) = Throw err →
     Task.status T1 = "completed" → Task.status T2 = "running" →
     created T1 = Some t1 → created T2 = Some t2 → (t1 < t2)%Z →
     stats (after_cycle api s) =
       {| totalAgents := 2; activeAgents := 1; totalTasks := 2;
          completedTasks := 1; failedTasks := 0; runningTasks := 1 |} ∧
     recentTasks (after_cycle api s) = [T2; T1]).
Proof.
  intros Hok. unfold Dashboard.after_cycle.
  rewrite (cycle_success Date_getTime api agentsData s Hok). simpl.
  rewrite !count_status_sort, Array_sort_length.
  rewrite (list_filter_iff _ _ agentsData is_active_iff).
  split; [done|].
  intros A1 A2 T1 T2 err t1 t2 -> HA1 HA2 Htasks1 Htasks2 HT1 HT2 Ht1 Ht2 Hlt.
  unfold Dashboard.merged, fetched_lists, count_status. cbn [omap list_omap].
  rewrite Htasks1, Htasks2. simpl.
  rewrite !filter_cons, !filter_nil, HA1, HA2, HT1, HT2. simpl.
  split; [done|].
  unfold Dashboard.Array_sort. simpl.
  rewrite (SortCompare_created Date_getTime T1 T2 t1 t2) by done.
  destruct (Z.leb_spec (t2 - t1) 0); [lia|done].
Qed.

(** C9 (as the code has it). When the health fetch of a cycle fails, the
    cycle still publishes its snapshot, without error, and writes a
    warning; the health cell is not touched: it keeps the value it had
    before the cycle, which is null only if no earlier cycle stored a
    health status. *)
Theorem health_failure_keeps_previous_health api agentsData err s :
  getAgents api = Normal agentsData →
  getHealth api = Throw err →
  (loadDashboardData Date_getTime api s).2 = Normal tt ∧
  error (after_cycle api s) = None ∧
  agents (after_cycle api s) = agentsData ∧
  recentTasks (after_cycle api s) = take 10 (Array_sort (merged api agentsData)) ∧
  totalTasks (stats (after_cycle api s)) = length (merged api agentsData) ∧
  healthStatus (after_cycle api s) = healthStatus s ∧
  console (after_cycle api s) =
    console s ++ task_warnings api agentsData ++
    [console_warn "Failed to load health status:" (Some err)].
Proof.
  intros Hok Hhealth. unfold Dashboard.after_cycle.
  rewrite (cycle_success Date_getTime api agentsData s Hok). simpl.
  unfold health_warnings. rewrite Hhealth, Array_sort_length. done.
Qed.

(** C10. When the fetched agent set is empty the cycle still publishes a
    snapshot: every counter is zero, there are no recent tasks, no error
    is set and nothing is logged for tasks. *)
Theorem empty_agent_set_zero_snapshot api s :
  getAgents api = Normal [] →
  (loadDashboardData Date_getTime api s).2 = Normal tt ∧
  stats (after_cycle api s) =
    {| totalAgents := 0; activeAgents := 0; totalTasks := 0;
       completedTasks := 0; failedTasks := 0; runningTasks := 0 |} ∧
  recentTasks (after_cycle api s) = [] ∧
  agents (after_cycle api s) = [] ∧
  error (after_cycle api s) = None ∧
  loading (after_cycle api s) = false.
Proof.
  intros Hok. unfold Dashboard.after_cycle.
  rewrite (cycle_success Date_getTime api [] s Hok). done.
Qed.

End Claims.

(** ** The claims on the sample backends *)

Lemma agent_fetch_failure_keeps_snapshot_witness :
  let s := after_cycle sample_getTime api_scenario initial in
  recentTasks s = [T2; T1] ∧
  stats (after_cycle sample_getTime api_unreachable s) = stats s ∧
  recentTasks (after_cycle sample_getTime api_unreachable s) = [T2; T1] ∧
  error (after_cycle sample_getTime api_unreachable s) = Some "Network Error" ∧
  after_cycle sample_getTime api_scenario
    (after_cycle sample_getTime api_unreachable s) =
  after_cycle sample_getTime api_scenario s.
Proof.
  intros s.
  destruct (agent_fetch_failure_keeps_snapshot sample_getTime
              api_unreachable api_scenario (ErrorObj "Network Error") [A1; A2] s
              eq_refl eq_refl)
    as (Hstats & _ & Htasks & _ & Herr & _ & _ & Hrec & _).
  split; [reflexivity|].
  split; [exact Hstats|].
  split; [rewrite Htasks; reflexivity|].
  split; [exact Herr|exact Hrec].
Defined.

Lemma partial_task_failures_tolerated_witness :
  merged api_scenario [A1; A2] = [T1; T2] ∧
  length (task_warnings api_scenario [A1; A2]) = 1 ∧
  error (after_cycle sample_getTime api_scenario initial) = None ∧
  totalTasks (stats (after_cycle sample_getTime api_scenario initial)) = 2.
Proof.
  destruct (partial_task_failures_tolerated sample_getTime api_scenario
              [A1; A2] initial 1 eq_refl eq_refl)
    as (_ & _ & _ & _ & Hwarn & _ & Herr & _ & _ & Htotal & _).
  split; [reflexivity|].
  split; [exact Hwarn|].
  split; [exact Herr|exact Htotal].
Defined.

Lemma busy_dates_parse :
  Forall (λ t, is_Some (created sample_getTime t)) (merged api_busy [A1]).
Proof. repeat (constructor; [by eexists|]). constructor. Defined.



Lemma stats_from_full_sets_witness :
  stats (after_cycle sample_getTime api_scenario initial) =
    {| totalAgents := 2; activeAgents := 1; totalTasks := 2;
       completedTasks := 1; failedTasks := 0; runningTasks := 1 |} ∧
  recentTasks (after_cycle sample_getTime api_scenario initial) = [T2; T1].
Proof.
  destruct (stats_from_full_sets sample_getTime api_scenario [A1; A2] initial
              eq_refl) as [_ Hscenario].
  apply (Hscenario A1 A2 T1 T2
           (ErrorObj "Request failed with status code 500")
           1704067200000%Z 1704153600000%Z);
    try reflexivity.
Defined.

(** C9, counterexample. A cycle with a healthy backend followed by a
    cycle whose health fetch fails: the second snapshot is published and
    still carries the health status of the first. *)
Lemma stale_health_is_carried_over :
  let s1 := after_cycle sample_getTime api_scenario initial in
  let s2 := after_cycle sample_getTime api_health_down s1 in
  getAgents api_health_down = Normal [A1; A2] ∧
  getHealth api_health_down = Throw (ErrorObj "Network Error") ∧
  error s2 = None ∧
  healthStatus s2 = Some healthy ∧
  healthStatus s2 ≠ None.
Proof. cbv zeta. split_and!; try reflexivity. discriminate. Qed.

Lemma health_failure_keeps_previous_health_witness :
  let s1 := after_cycle sample_getTime api_scenario initial in
  healthStatus (after_cycle sample_getTime api_health_down s1) = Some healthy ∧
  healthStatus (after_cycle sample_getTime api_health_down initial) = None.
Proof.
  intros s1. split.
  - destruct (health_failure_keeps_previous_health sample_getTime api_health_down
                [A1; A2] (ErrorObj "Network Error") s1 eq_refl eq_refl)
      as (_ & _ & _ & _ & _ & Hhealth & _).
    rewrite Hhealth. reflexivity.
  - destruct (health_failure_keeps_previous_health sample_getTime api_health_down
                [A1; A2] (ErrorObj "Network Error") initial eq_refl eq_refl)
      as (_ & _ & _ & _ & _ & Hhealth & _).
    exact Hhealth.
Defined.

Lemma empty_agent_set_zero_snapshot_witness :
  stats (after_cycle sample_getTime api_empty initial) =
    {| totalAgents := 0; activeAgents := 0; totalTasks := 0;
       completedTasks := 0; failedTasks := 0; runningTasks := 0 |} ∧
  recentTasks (after_cycle sample_getTime api_empty initial) = [].
Proof.
  destruct (empty_agent_set_zero_snapshot sample_getTime api_empty initial eq_refl)
    as (_ & Hstats & Hrecent & _).
  split; [exact Hstats|exact Hrecent].
Defined.

End DashboardFacts.

(** * Facts about the push-event client *)

Module WebSocketFacts.
Import WebSocketService.

Section PassFacts.
Variable behaviour : Function → JSON → Behaviour.

#[local] Abbreviation invoke := (invoke behaviour).
#[local] Abbreviation forEach := (forEach behaviour).
#[local] Abbreviation invoke_state := (invoke_state behaviour).
#[local] Abbreviation leaves_pass_alone := (leaves_pass_alone behaviour).

Lemma perform_spec c s :
  perform c s = (set_listeners (apply_call (listeners s) c) s, Normal tt).
Proof. by destruct c. Qed.

Lemma perform_all_spec cs : ∀ s,
  perform_all cs s = (set_listeners (foldl apply_call (listeners s) cs) s, Normal tt).
Proof.
  induction cs as [|c cs IH]; intros s.
  - by destruct s.
  - cbn [perform_all]. unfold mbind, Eff_bind, bind.
    rewrite perform_spec, IH. done.
Qed.

Lemma invoke_spec listener data s :
  invoke listener data s =
    (invoke_state data s listener,
     match raises (behaviour listener data) with
     | Some e => Throw e
     | None => Normal tt
     end).
Proof.
  unfold WebSocketService.invoke, mbind, Eff_bind, bind, modify.
  rewrite perform_all_spec. unfold WebSocketService.invoke_state.
  by destruct (raises (behaviour listener data)).
Qed.

(** An entry of the registry is never removed: the array found under a
    topic when a pass starts is the array found there during the pass. *)
Lemma apply_call_keeps_entry topic m c :
  is_Some (m !! topic) → is_Some (apply_call m c !! topic).
Proof.
  intros Hm. destruct c as [t cb|t cb]; simpl.
  - unfold register. rewrite lookup_alter_is_Some.
    case_decide; [done|]. rewrite lookup_insert_is_Some.
    destruct (decide (t = topic)); eauto.
  - unfold unregister. destruct (m !! t); [|done].
    case_match; [|done]. by rewrite lookup_alter_is_Some.
Qed.

Lemma apply_call_live_prefix topic l m c :
  live_prefix topic l m →
  (∀ callback, c ≠ call_unsubscribe topic callback) →
  live_prefix topic l (apply_call m c).
Proof.
  intros (l' & Hl' & Hpre) Hc. unfold live_prefix.
  destruct c as [t cb|t cb]; simpl.
  - unfold register. destruct (decide (t = topic)) as [->|Hne].
    + rewrite decide_True by (by rewrite Hl').
      rewrite lookup_alter_eq, Hl'. simpl.
      eexists; split; [done|]. by apply prefix_app_r.
    + rewrite lookup_alter_ne by done.
      case_decide; [|rewrite lookup_insert_ne by done]; eauto.
  - assert (t ≠ topic) as Hne by (intros ->; by eapply Hc).
    unfold unregister. destruct (m !! t) as [lt|]; [|eauto].
    case_match; [rewrite lookup_alter_ne by done|]; eauto.
Qed.

Lemma apply_calls_live_prefix topic l cs : ∀ m,
  live_prefix topic l m →
  (∀ callback, call_unsubscribe topic callback ∉ cs) →
  live_prefix topic l (foldl apply_call m cs).
Proof.
  induction cs as [|c cs IH]; intros m Hm Hcs; [done|].
  simpl. apply IH.
  - apply apply_call_live_prefix; [done|].
    intros cb ->. apply (Hcs cb). by left.
  - intros cb Hin. apply (Hcs cb). by right.
Qed.

(** A pass over callbacks that leave it alone calls them one after the
    other, whatever they append to the list meanwhile. *)
Lemma forEach_undisturbed topic data l : ∀ n k s,
  live_prefix topic l (listeners s) →
  k + n ≤ length l →
  Forall (leaves_pass_alone topic data) (take n (drop k l)) →
  forEach n k topic data s =
    (foldl (invoke_state data) s (take n (drop k l)), Normal tt) ∧
  live_prefix topic l (listeners (foldl (invoke_state data) s (take n (drop k l)))).
Proof.
  induction n as [|n IH]; intros k s Hlive Hlen Hall.
  - by rewrite take_0.
  - destruct (lookup_lt_is_Some_2 l k) as [f Hf]; [lia|].
    rewrite (drop_S _ _ _ Hf) in *. cbn [take] in *.
    apply Forall_cons in Hall as [[Hcalls Hret] Hall].
    destruct Hlive as (l' & Hl' & Hpre).
    cbn [WebSocketService.forEach foldl].
    rewrite Hl'. simpl. rewrite (prefix_lookup_Some _ _ _ _ Hf Hpre).
    unfold mbind, Eff_bind, bind. rewrite invoke_spec, Hret.
    apply IH; [|lia|done].
    unfold WebSocketService.invoke_state; simpl.
    apply apply_calls_live_prefix; [|done].
    by exists l'.
Qed.

Lemma Eff_bind_apply {A B} (m : Eff State A) (k : A → Eff State B) s :
  (m ≫= k) s =
    match m s with
    | (s', Normal a) => k a s'
    | (s', Throw e) => (s', Throw e)
    end.
Proof. done. Qed.

Lemma forEach_split topic data n2 : ∀ n1 k s,
  forEach (n1 + n2) k topic data s =
    (forEach n1 k topic data;; forEach n2 (n1 + k) topic data) s.
Proof.
  induction n1 as [|n1 IH]; intros k s.
  - done.
  - cbn [Nat.add WebSocketService.forEach].
    replace (S (n1 + k)) with (n1 + S k) by lia.
    etrans; [|symmetry; apply Eff_bind_apply]. cbv beta.
    destruct (listeners s !! topic ≫= (λ l, l !! k)) as [f|].
    + rewrite !Eff_bind_apply.
      destruct (invoke f data s) as [s1 [[]|e]]; [|done].
      by rewrite IH, Eff_bind_apply.
    + by rewrite IH, Eff_bind_apply.
Qed.

Lemma invoked_pass data fs : ∀ s,
  invoked (foldl (invoke_state data) s fs) = invoked s ++ map (λ f, (f, data)) fs.
Proof.
  induction fs as [|f fs IH]; intros s; simpl.
  - by rewrite app_nil_r.
  - rewrite IH. simpl. by rewrite <- app_assoc.
Qed.

Lemma pass_keeps_connection data fs : ∀ s,
  ws (foldl (invoke_state data) s fs) = ws s ∧
  sockets (foldl (invoke_state data) s fs) = sockets s ∧
  timers (foldl (invoke_state data) s fs) = timers s ∧
  console (foldl (invoke_state data) s fs) = console s.
Proof.
  induction fs as [|f fs IH]; intros s; simpl; [done|].
  destruct (IH (invoke_state data s f)) as (-> & -> & -> & ->). done.
Qed.

(** A pass stops at the first callback that throws. *)
Lemma forEach_stops_at_throw topic data l k f e s :
  listeners s !! topic = Some l →
  l !! k = Some f →
  raises (behaviour f data) = Some e →
  Forall (leaves_pass_alone topic data) (take k l) →
  forEach (length l) 0 topic data s =
    (foldl (invoke_state data) s (take (S k) l), Throw e).
Proof.
  intros Hl Hf He Hall.
  assert (k < length l) as Hk by (by eapply lookup_lt_Some).
  replace (length l) with (k + S (length l - S k)) by lia.
  rewrite forEach_split. unfold mbind, Eff_bind, bind.
  destruct (forEach_undisturbed topic data l k 0 s) as [-> Hlive].
  { by exists l. }
  { lia. }
  { by rewrite drop_0. }
  rewrite drop_0 in *. destruct Hlive as (l' & Hl' & Hpre).
  cbn [WebSocketService.forEach]. rewrite Nat.add_0_r, Hl'. simpl.
  rewrite (prefix_lookup_Some _ _ _ _ Hf Hpre).
  unfold mbind, Eff_bind, bind. rewrite invoke_spec, He.
  by rewrite (take_S_r _ _ _ Hf), foldl_snoc.
Qed.

End PassFacts.

(** ** The claims about the push-event client *)

(** C1 (the code reconnects). A caller connects, the transport opens, the
    caller disconnects: the reference is cleared and the socket is
    closing. When the close event of that socket then fires, the handler
    installed by [connect] arms the reconnect timer, and when the timer
    elapses a second transport is opened and becomes the current one,
    without any further call of [connect] by the caller. *)
Theorem disconnect_then_close_reconnects JSON_parse behaviour :
  (λ s, (ws s, sockets s, timers s)) <$>
    run JSON_parse behaviour [CallConnect; SocketOpen 0; CallDisconnect] initial
  = Some (None, [CLOSING], 0) ∧
  (λ s, (ws s, sockets s, timers s)) <$>
    run JSON_parse behaviour
      [CallConnect; SocketOpen 0; CallDisconnect; SocketClose 0] initial
  = Some (None, [CLOSED], 1) ∧
  (λ s, (ws s, sockets s, timers s, connectionState s, opened s)) <$>
    run JSON_parse behaviour
      [CallConnect; SocketOpen 0; CallDisconnect; SocketClose 0; TimerElapsed] initial
  = Some (Some 1, [CLOSED; CONNECTING], 0, Connecting, 2).
Proof. split_and!; reflexivity. Qed.

(** The same from any state whose current socket has not closed yet. *)
Lemma close_after_disconnect_reconnects JSON_parse behaviour s sock r :
  ws s = Some sock → sockets s !! sock = Some r → r ≠ CLOSED →
  ∃ s', run JSON_parse behaviour [CallDisconnect; SocketClose sock; TimerElapsed] s
          = Some s' ∧
        ws s' = Some (opened s) ∧ opened s' = S (opened s) ∧
        sockets s' !! opened s = Some CONNECTING.
Proof.
  intros Hws Hsock Hr.
  assert (sock < length (sockets s)) as Hlt by (by eapply lookup_lt_Some).
  assert (step JSON_parse behaviour CallDisconnect s =
          Some (set_ws None (set_sockets (alter start_closing sock (sockets s)) s)))
    as Hstep1.
  { unfold step. simpl. unfold disconnect. by rewrite Hws. }
  assert (step JSON_parse behaviour (SocketClose sock)
            (set_ws None (set_sockets (alter start_closing sock (sockets s)) s)) =
          Some (set_timers (S (timers s))
                  (add_console (console_log "WebSocket disconnected")
                     (set_sockets
                        (<[sock:=CLOSED]> (alter start_closing sock (sockets s)))
                        (set_ws None s)))))
    as Hstep2.
  { unfold step. cbn [enabled deliver handler]. simpl.
    rewrite list_lookup_alter, Hsock, decide_True by done. simpl.
    rewrite bool_decide_true; [done|].
    split; [by eexists|]. by destruct r. }
  cbn [run]. rewrite Hstep1. cbn [mbind option_bind]. rewrite Hstep2.
  cbn [mbind option_bind]. unfold step. simpl.
  eexists; split; [done|]. simpl. unfold opened; simpl.
  rewrite !length_app, !length_insert, !length_alter. simpl.
  split_and!; [done|lia|].
  replace (length (sockets s)) with
    (length (<[sock:=CLOSED]> (alter start_closing sock (sockets s))))
    by by rewrite length_insert, length_alter.
  by apply list_lookup_middle.
Qed.

(** C8 (as the code has it). [connect()] has no guard: in every state it
    constructs a new transport, which is connecting, and makes it the
    current one; the earlier sockets, the registry and the timers are
    left as they are. *)
Theorem connect_always_opens_transport s :
  connect s =
    (set_ws (Some (length (sockets s))) (set_sockets (sockets s ++ [CONNECTING]) s),
     Normal tt) ∧
  opened (connect s).1 = S (opened s) ∧
  sockets (connect s).1 = sockets s ++ [CONNECTING] ∧
  ws (connect s).1 = Some (opened s) ∧
  connectionState (connect s).1 = Connecting ∧
  listeners (connect s).1 = listeners s ∧
  timers (connect s).1 = timers s.
Proof.
  split_and!; try done.
  - unfold opened; simpl. rewrite length_app. simpl. lia.
  - unfold connectionState; simpl.
    by rewrite (list_lookup_middle (sockets s) [] CONNECTING (length (sockets s))).
Qed.

(** C8, counterexample. [connect()] on a service that is connecting, or
    connected, opens a second transport and replaces the current one. *)
Lemma connect_while_connected_opens_another :
  run sample_parse plain_callbacks [CallConnect] initial = Some s_connecting ∧
  run sample_parse plain_callbacks [CallConnect; SocketOpen 0] initial = Some s_connected ∧
  connectionState s_connecting = Connecting ∧
  connectionState s_connected = Connected ∧
  (connect s_connecting).1 ≠ s_connecting ∧
  (connect s_connected).1 ≠ s_connected ∧
  sockets (connect s_connecting).1 = [CONNECTING; CONNECTING] ∧
  sockets (connect s_connected).1 = [OPEN; CONNECTING] ∧
  ws (connect s_connected).1 = Some 1.
Proof. split_and!; try reflexivity; discriminate. Qed.

(** C2 (as the code has it). A dispatch runs over the list stored for
    the topic, not over a copy. When none of the callbacks registered for
    the topic unsubscribes from that topic or throws while it is called,
    the pass calls exactly the callbacks registered before it began, in
    registration order, each once with the payload; whatever they
    subscribe during the pass is appended behind them and is called from
    the next dispatch on. *)
Theorem dispatch_runs_over_live_list behaviour topic data l s :
  listeners s !! topic = Some l →
  Forall (leaves_pass_alone behaviour topic data) l →
  dispatch behaviour (Some (JString topic)) data s =
    (foldl (invoke_state behaviour data) s l, Normal tt) ∧
  invoked (foldl (invoke_state behaviour data) s l) =
    invoked s ++ map (λ f, (f, data)) l ∧
  live_prefix topic l (listeners (foldl (invoke_state behaviour data) s l)).
Proof.
  intros Hl Hall. unfold dispatch. rewrite Hl.
  destruct (forEach_undisturbed behaviour topic data l (length l) 0 s) as [Hrun Hlive].
  { by exists l. }
  { lia. }
  { by rewrite drop_0, firstn_all. }
  rewrite drop_0, firstn_all in *.
  split_and!; [done| |done]. apply invoked_pass.
Qed.

(** C2, counterexample. Callbacks 0 and 1 are subscribed to agent_status,
    callback 0 unsubscribes itself when called. A frame of that type
    arrives: callback 0 is called, callback 1, registered before the pass
    began, is not. *)
Lemma one_shot_listener_hides_the_next :
  (λ s, listeners s !! "agent_status") <$>
    run sample_parse one_shot_callbacks two_subscribers initial
  = Some (Some [0; 1]) ∧
  (λ s, (invoked s, listeners s !! "agent_status")) <$>
    run sample_parse one_shot_callbacks
      (two_subscribers ++ [SocketMessage 0 status_frame]) initial
  = Some ([(0, status_data)], Some [1]) ∧
  [(0, status_data)] ≠ map (λ f, (f, status_data)) [0; 1].
Proof. split_and!; try reflexivity. discriminate. Qed.

Lemma subscribing_callbacks_leave_pass_alone :
  Forall (leaves_pass_alone subscribing_callbacks "agent_status" status_data) [0; 1].
Proof.
  repeat constructor; simpl.
  - intros callback. rewrite elem_of_cons, elem_of_nil. intros [?|[]]. discriminate.
  - intros callback. apply not_elem_of_nil.
Defined.

Lemma dispatch_runs_over_live_list_witness :
  run sample_parse subscribing_callbacks two_subscribers initial
    = Some s_two_subscribers ∧
  invoked (dispatch subscribing_callbacks (Some (JString "agent_status"))
             status_data s_two_subscribers).1
    = [(0, status_data); (1, status_data)] ∧
  listeners (dispatch subscribing_callbacks (Some (JString "agent_status"))
               status_data s_two_subscribers).1 !! "agent_status"
    = Some [0; 1; 2].
Proof.
  destruct (dispatch_runs_over_live_list subscribing_callbacks "agent_status"
              status_data [0; 1] s_two_subscribers eq_refl
              subscribing_callbacks_leave_pass_alone)
    as (Hrun & Hinvoked & _).
  split; [reflexivity|].
  rewrite Hrun. split; [exact Hinvoked|reflexivity].
Defined.

(** Whatever a frame contains and whatever the callbacks do, the message
    handler returns normally. *)
Lemma onmessage_returns JSON_parse behaviour raw s :
  (onmessage JSON_parse behaviour raw s).2 = Normal tt.
Proof.
  unfold onmessage, try_catch.
  by destruct (_ ≫= _) as [s' [[]|e]].
Qed.

(** C3 (as the code has it). When a callback throws during a dispatch,
    the exception leaves the loop: the callbacks registered behind it are
    not called in that pass. It is caught by the handler, written to the
    console as an error, and the handler returns normally to the
    transport. *)
Theorem callback_exception_ends_the_pass
    JSON_parse behaviour raw data topic l k f e s :
  JSON_parse raw = Normal data →
  get_type data = Normal (Some (JString topic)) →
  listeners s !! topic = Some l →
  l !! k = Some f →
  raises (behaviour f data) = Some e →
  Forall (leaves_pass_alone behaviour topic data) (take k l) →
  onmessage JSON_parse behaviour raw s =
    (add_console (console_error "Error parsing WebSocket message:" (Some e))
       (foldl (invoke_state behaviour data) s (take (S k) l)),
     Normal tt) ∧
  invoked (onmessage JSON_parse behaviour raw s).1 =
    invoked s ++ map (λ f, (f, data)) (take (S k) l) ∧
  console (onmessage JSON_parse behaviour raw s).1 =
    console s ++ [console_error "Error parsing WebSocket message:" (Some e)].
Proof.
  intros Hparse Htype Hl Hf He Hall.
  assert (onmessage JSON_parse behaviour raw s =
    (add_console (console_error "Error parsing WebSocket message:" (Some e))
       (foldl (invoke_state behaviour data) s (take (S k) l)), Normal tt)) as ->.
  { unfold onmessage, try_catch. rewrite !Eff_bind_apply. unfold await.
    rewrite Hparse, Eff_bind_apply, Htype. unfold dispatch. rewrite Hl.
    by rewrite (forEach_stops_at_throw behaviour topic data l k f e s). }
  split_and!; [done|apply invoked_pass|].
  simpl. by destruct (pass_keeps_connection behaviour data (take (S k) l) s)
    as (_ & _ & _ & ->).
Qed.

Lemma callback_exception_ends_the_pass_witness :
  invoked (onmessage sample_parse throwing_callbacks status_frame
             s_three_subscribers).1
    = [(1, status_data); (0, status_data)] ∧
  console (onmessage sample_parse throwing_callbacks status_frame
             s_three_subscribers).1
    = [console_log "WebSocket connected";
       console_error "Error parsing WebSocket message:"
         (Some (ErrorObj "render failed"))].
Proof.
  destruct (callback_exception_ends_the_pass sample_parse throwing_callbacks
              status_frame status_data "agent_status" [1; 0; 3] 1 0
              (ErrorObj "render failed") s_three_subscribers
              eq_refl eq_refl eq_refl eq_refl eq_refl)
    as (_ & Hinvoked & Hconsole).
  { repeat constructor. simpl. intros callback. apply not_elem_of_nil. }
  split; [exact Hinvoked|exact Hconsole].
Defined.

(** C3, counterexample. Callbacks 0 and 1 are subscribed to agent_status
    and callback 0 throws: callback 1 is not called for the frame. *)
Lemma throwing_listener_starves_the_next :
  (λ s, listeners s !! "agent_status") <$>
    run sample_parse throwing_callbacks two_subscribers initial
  = Some (Some [0; 1]) ∧
  invoked <$>
    run sample_parse throwing_callbacks
      (two_subscribers ++ [SocketMessage 0 status_frame]) initial
  = Some [(0, status_data)] ∧
  (1, status_data) ∉ [(0, status_data)].
Proof.
  split_and!; try reflexivity.
  rewrite elem_of_cons, elem_of_nil. intros [?|[]]. discriminate.
Qed.

End WebSocketFacts.

(** * Further facts about the Dashboard page *)

Module DashboardViewFacts.
Import Dashboard DashboardView DashboardFacts.

Lemma count_status_disjoint tasks :
  count_status "completed" tasks + count_status "failed" tasks +
  count_status "running" tasks ≤ length tasks.
Proof.
  unfold count_status. induction tasks as [|t tasks IH]; simpl; [done|].
  rewrite !filter_cons.
  repeat case_decide; simpl; try lia; congruence.
Qed.

Lemma after_cycle_consistent Date_getTime api s :
  consistent s → consistent (after_cycle Date_getTime api s).
Proof.
  intros (Hagents & Hactive & Htasks & Hrecent). unfold consistent, after_cycle.
  destruct (getAgents api) as [agentsData|err] eqn:Hfetch.
  - rewrite (cycle_success Date_getTime api agentsData s Hfetch). simpl.
    split_and!; [done|apply length_filter| |by rewrite length_take].
    rewrite !count_status_sort, Array_sort_length. apply count_status_disjoint.
  - rewrite (cycle_failure Date_getTime api err s Hfetch). simpl. done.
Qed.

(** X1. After any number of cycles from the initial state the statistics agree
    with the other cells: as many agents counted as listed, no more active
    agents than agents, no more completed, failed and running tasks than
    tasks, and as many recent tasks as there are tasks, up to 10. Once a
    cycle has run the page is not loading. *)
Theorem cycles_keep_page_consistent Date_getTime apis :
  consistent (run_cycles Date_getTime apis initial) ∧
  (apis ≠ [] → loading (run_cycles Date_getTime apis initial) = false).
Proof.
  unfold run_cycles. induction apis as [|api apis IH] using rev_ind.
  - split; [|done]. unfold consistent. simpl. split_and!; done.
  - rewrite foldl_snoc. destruct IH as [IH _]. split.
    + by apply after_cycle_consistent.
    + intros _. unfold after_cycle.
      destruct (getAgents api) as [agentsData|err] eqn:Hfetch.
      * by rewrite (cycle_success Date_getTime api agentsData _ Hfetch).
      * by rewrite (cycle_failure Date_getTime api err _ Hfetch).
Qed.

Lemma cycles_keep_page_consistent_witness :
  consistent (run_cycles sample_getTime [api_busy; api_unreachable; api_scenario] initial) ∧
  loading (run_cycles sample_getTime [api_busy; api_unreachable; api_scenario] initial)
    = false.
Proof.
  destruct (cycles_keep_page_consistent sample_getTime
              [api_busy; api_unreachable; api_scenario]) as [Hconsistent Hloading].
  split; [exact Hconsistent|]. apply Hloading. discriminate.
Defined.

(** X2. A cycle whose agent and health fetches succeed publishes cells that
    depend on the answers of the backend only: whatever the page showed
    before, statistics, agents, recent tasks, health, error and loading
    come out the same. *)
Theorem snapshot_replaces_previous Date_getTime api agentsData health s1 s2 :
  getAgents api = Normal agentsData →
  getHealth api = Normal health →
  stats (after_cycle Date_getTime api s1) = stats (after_cycle Date_getTime api s2) ∧
  agents (after_cycle Date_getTime api s1) = agents (after_cycle Date_getTime api s2) ∧
  recentTasks (after_cycle Date_getTime api s1) =
    recentTasks (after_cycle Date_getTime api s2) ∧
  healthStatus (after_cycle Date_getTime api s1) = Some health ∧
  healthStatus (after_cycle Date_getTime api s2) = Some health ∧
  error (after_cycle Date_getTime api s1) = error (after_cycle Date_getTime api s2) ∧
  loading (after_cycle Date_getTime api s1) = loading (after_cycle Date_getTime api s2).
Proof.
  intros Hagents Hhealth. unfold after_cycle.
  rewrite !(cycle_success Date_getTime api agentsData _ Hagents). simpl.
  by rewrite Hhealth.
Qed.

Lemma snapshot_replaces_previous_witness :
  recentTasks (after_cycle sample_getTime api_scenario
                 (after_cycle sample_getTime api_busy initial)) =
  recentTasks (after_cycle sample_getTime api_scenario initial) ∧
  stats (after_cycle sample_getTime api_scenario
           (after_cycle sample_getTime api_busy initial)) =
  stats (after_cycle sample_getTime api_scenario initial).
Proof.
  destruct (snapshot_replaces_previous sample_getTime api_scenario [A1; A2] healthy
              (after_cycle sample_getTime api_busy initial) initial eq_refl eq_refl)
    as (Hstats & _ & Hrecent & _).
  split; [exact Hrecent|exact Hstats].
Defined.

Lemma StronglySorted_app_elem {A} (R : A → A → Prop) l1 : ∀ l2 x y,
  StronglySorted R (l1 ++ l2) → x ∈ l1 → y ∈ l2 → R x y.
Proof.
  induction l1 as [|a l1 IH]; intros l2 x y Hsorted Hx Hy.
  - by apply elem_of_nil in Hx.
  - simpl in Hsorted. apply StronglySorted_inv in Hsorted as [Hsorted Ha].
    apply elem_of_cons in Hx as [->|Hx]; [|by eapply IH].
    rewrite Forall_forall in Ha. apply Ha. rewrite elem_of_app. by right.
Qed.

(** X3. The recent tasks are the most recent ones: when the creation date of
    every merged task parses, the merged tasks are the recent tasks
    together with the tasks left out, and no task left out was created
    after a task that is shown. *)
Theorem recent_tasks_are_most_recent Date_getTime api agentsData s :
  getAgents api = Normal agentsData →
  Forall (λ t, is_Some (created Date_getTime t)) (merged api agentsData) →
  ∃ rest,
    merged api agentsData ≡ₚ recentTasks (after_cycle Date_getTime api s) ++ rest ∧
    ∀ shown hidden,
      shown ∈ recentTasks (after_cycle Date_getTime api s) → hidden ∈ rest →
      not_older Date_getTime shown hidden.
Proof.
  intros Hagents Hvalid. unfold after_cycle.
  rewrite (cycle_success Date_getTime api agentsData s Hagents). simpl.
  exists (drop 10 (Array_sort Date_getTime (merged api agentsData))). split.
  - by rewrite take_drop, Array_sort_Permutation.
  - intros shown hidden. apply StronglySorted_app_elem.
    rewrite take_drop. by apply Array_sort_sorted.
Qed.

Lemma recent_tasks_are_most_recent_witness :
  ∃ rest,
    merged api_busy [A1] ≡ₚ
      recentTasks (after_cycle sample_getTime api_busy initial) ++ rest ∧
    ∀ shown hidden,
      shown ∈ recentTasks (after_cycle sample_getTime api_busy initial) →
      hidden ∈ rest → not_older sample_getTime shown hidden.
Proof.
  exact (recent_tasks_are_most_recent sample_getTime api_busy [A1] initial
           eq_refl busy_dates_parse).
Defined.

(** X4. The task chart has a bar for a counter exactly when the counter is
    positive: its bars are those of the three bars Completed (with the
    number of completed tasks), Running (with the number of running tasks)
    and Failed (with the number of failed tasks) whose value is positive,
    in this order and each at most once. The bars add up to the three
    counters, and there is no bar at all exactly when all three are 0.
    Pending tasks have no bar. *)
Theorem taskStatusData_bars stats :
  (∀ item,
     item ∈ taskStatusData stats ↔
     0 < value item ∧
     (item = {| name := "Completed"; value := completedTasks stats |} ∨
      item = {| name := "Running"; value := runningTasks stats |} ∨
      item = {| name := "Failed"; value := failedTasks stats |})) ∧
  taskStatusData stats `sublist_of`
    [ {| name := "Completed"; value := completedTasks stats |};
      {| name := "Running"; value := runningTasks stats |};
      {| name := "Failed"; value := failedTasks stats |} ] ∧
  Forall (λ item, 0 < value item) (taskStatusData stats) ∧
  name <$> taskStatusData stats `sublist_of` ["Completed"; "Running"; "Failed"] ∧
  sum_list_with value (taskStatusData stats) =
    completedTasks stats + runningTasks stats + failedTasks stats ∧
  (taskStatusData stats = [] ↔
     completedTasks stats = 0 ∧ runningTasks stats = 0 ∧ failedTasks stats = 0).
Proof.
  unfold taskStatusData. split.
  { intros item. rewrite list_elem_of_filter, !elem_of_cons, elem_of_nil. tauto. }
  rewrite !filter_cons, filter_nil. simpl.
  destruct (completedTasks stats) as [|c], (runningTasks stats) as [|r],
    (failedTasks stats) as [|f];
    repeat case_decide; try lia; simpl;
    (split_and!;
      [ auto 6 using sublist_nil, sublist_cons, sublist_skip
      | rewrite ?Forall_cons, ?Forall_nil; simpl; lia
      | auto 6 using sublist_nil, sublist_cons, sublist_skip
      | lia
      | split; [intros ?|intros (? & ? & ?)]; by simplify_eq ]).
Qed.

(** The bars for one completed and two failed tasks. *)
Lemma taskStatusData_bars_example :
  taskStatusData {| totalAgents := 2; activeAgents := 1; totalTasks := 5;
                    completedTasks := 1; failedTasks := 2; runningTasks := 0 |}
  = [ {| name := "Completed"; value := 1 |}; {| name := "Failed"; value := 2 |} ].
Proof. reflexivity. Qed.

End DashboardViewFacts.

(** * Further facts about the push-event client *)

Module WebSocketMoreFacts.
Import WebSocketService WebSocketAccounting WebSocketFacts.

(** ** The registry *)

Lemma indexOf_absent l cb : cb ∉ l → indexOf l cb = (-1)%Z.
Proof.
  induction l as [|f l IH]; simpl; [done|].
  rewrite not_elem_of_cons. intros [Hne Hl].
  rewrite decide_False by done. by rewrite IH.
Qed.

Lemma indexOf_first l1 cb l2 :
  cb ∉ l1 → indexOf (l1 ++ cb :: l2) cb = Z.of_nat (length l1).
Proof.
  induction l1 as [|f l1 IH]; simpl.
  - intros _. by rewrite decide_True.
  - rewrite not_elem_of_cons. intros [Hne Hl].
    rewrite decide_False by done. rewrite IH by done.
    destruct (Z.ltb_spec (Z.of_nat (length l1)) 0); lia.
Qed.

Lemma alter_present {A} (f : A → A) (m : gmap string A) t x :
  m !! t = Some x → alter f t m = <[t := f x]> m.
Proof.
  intros Hx. apply map_eq. intros t'.
  destruct (decide (t = t')) as [<-|Hne].
  - by rewrite lookup_alter_eq, lookup_insert_eq, Hx.
  - by rewrite lookup_alter_ne, lookup_insert_ne.
Qed.

Lemma unregister_first t cb m l1 l2 :
  m !! t = Some (l1 ++ cb :: l2) → cb ∉ l1 →
  unregister t cb m = <[t := l1 ++ l2]> m.
Proof.
  intros Hm Hl1. unfold unregister. rewrite Hm, indexOf_first by done.
  destruct (Z.ltb_spec (-1) (Z.of_nat (length l1))); [|lia].
  rewrite Nat2Z.id, (alter_present _ _ _ _ Hm).
  by rewrite delete_middle.
Qed.

Lemma unregister_absent t cb m :
  (∀ l, m !! t = Some l → cb ∉ l) → unregister t cb m = m.
Proof.
  intros Hm. unfold unregister. destruct (m !! t) as [l|] eqn:Hl; [|done].
  rewrite indexOf_absent by eauto. done.
Qed.

Lemma register_present t cb m l :
  m !! t = Some l → register t cb m = <[t := l ++ [cb]]> m.
Proof.
  intros Hm. unfold register. rewrite decide_True by (by rewrite Hm).
  by rewrite (alter_present _ _ _ _ Hm).
Qed.

(** X5. [unsubscribe] removes one registration of the callback, the oldest:
    the callbacks before it and all those behind it, later registrations
    of the same callback among them, stay in place. *)
Theorem unsubscribe_removes_oldest_registration t cb s l1 l2 :
  listeners s !! t = Some (l1 ++ cb :: l2) → cb ∉ l1 →
  unsubscribe t cb s = (set_listeners (<[t := l1 ++ l2]> (listeners s)) s, Normal tt).
Proof.
  intros Hm Hl1. unfold unsubscribe, modify.
  by rewrite (unregister_first t cb _ l1 l2).
Qed.

Lemma unsubscribe_removes_oldest_registration_witness :
  listeners (unsubscribe "agent_status" 0
               (set_listeners {["agent_status" := [1; 0; 3; 0]]} initial)).1
    !! "agent_status" = Some [1; 3; 0].
Proof.
  rewrite (unsubscribe_removes_oldest_registration "agent_status" 0
             (set_listeners {["agent_status" := [1; 0; 3; 0]]} initial) [1] [3; 0]).
  - reflexivity.
  - reflexivity.
  - rewrite elem_of_cons, elem_of_nil. intros [?|[]]. discriminate.
Defined.

(** X6. [unsubscribe] of a callback that is not registered for the topic, or
    for a topic nobody ever subscribed to, changes nothing. *)
Theorem unsubscribe_unknown_is_noop t cb s :
  (∀ l, listeners s !! t = Some l → cb ∉ l) →
  unsubscribe t cb s = (s, Normal tt).
Proof.
  intros Hm. unfold unsubscribe, modify.
  rewrite unregister_absent by done. by destruct s.
Qed.

Lemma unsubscribe_unknown_is_noop_witness :
  unsubscribe "task_update" 7 s_two_subscribers = (s_two_subscribers, Normal tt).
Proof.
  apply unsubscribe_unknown_is_noop. intros l Hl. discriminate Hl.
Defined.

(** X7. [subscribe] followed by [unsubscribe] of the same callback on a topic
    that has an entry leaves the same callbacks registered, each as often
    as before. If the callback was not registered before, the registry is
    exactly as it was; if it was, its oldest registration is the one that
    goes, so the callback moves to the end of the list. *)
Theorem subscribe_unsubscribe_round_trip t cb s l :
  listeners s !! t = Some l →
  ∃ l', listeners (unsubscribe t cb (subscribe t cb s).1).1 !! t = Some l' ∧
        l' ≡ₚ l ∧
        (cb ∉ l → unsubscribe t cb (subscribe t cb s).1 = (s, Normal tt)) ∧
        (∀ l1 l2, l = l1 ++ cb :: l2 → cb ∉ l1 → l' = l1 ++ l2 ++ [cb]).
Proof.
  intros Hl. unfold subscribe, unsubscribe, modify. simpl.
  rewrite (register_present _ _ _ _ Hl).
  destruct (decide (cb ∈ l)) as [Hin|Hnotin].
  - apply list_elem_of_split_l in Hin as (l1 & l2 & -> & Hl1).
    rewrite (unregister_first t cb _ l1 (l2 ++ [cb])); last done; last first.
    { by rewrite lookup_insert_eq, <- app_assoc. }
    rewrite insert_insert_eq, lookup_insert_eq.
    eexists; split; [done|]. split_and!.
    + by rewrite (Permutation_app_comm l2 [cb]).
    + intros Hno. exfalso. apply Hno. rewrite elem_of_app, elem_of_cons. auto.
    + intros l1' l2' Heq Hl1'.
      assert (l1' = l1 ∧ l2' = l2) as [-> ->]; [|done].
      clear -Heq Hl1 Hl1'. revert l1' Heq Hl1'.
      induction l1 as [|a l1 IH]; intros [|a' l1'] Heq Hl1'; simplify_eq/=.
      * done.
      * exfalso. apply Hl1'. by left.
      * exfalso. apply Hl1. by left.
      * rewrite not_elem_of_cons in Hl1, Hl1'.
        destruct (IH (proj2 Hl1) l1' H0 (proj2 Hl1')) as [-> ->]. done.
  - rewrite (unregister_first t cb _ l []); last done; last first.
    { by rewrite lookup_insert_eq. }
    rewrite insert_insert_eq, lookup_insert_eq, app_nil_r.
    exists l. split_and!; [done|done| |].
    + intros _. rewrite (insert_id _ _ _ Hl). by destruct s.
    + intros l1 l2 -> _. exfalso. apply Hnotin.
      rewrite elem_of_app, elem_of_cons. auto.
Qed.

Lemma subscribe_unsubscribe_round_trip_witness :
  listeners (unsubscribe "agent_status" 0
               (subscribe "agent_status" 0 s_two_subscribers).1).1
    !! "agent_status" = Some [1; 0] ∧
  unsubscribe "agent_status" 5 (subscribe "agent_status" 5 s_two_subscribers).1
    = (s_two_subscribers, Normal tt).
Proof.
  destruct (subscribe_unsubscribe_round_trip "agent_status" 5 s_two_subscribers
              [0; 1] eq_refl) as (l' & _ & _ & Hrestore & _).
  split; [reflexivity|].
  apply Hrestore. rewrite !elem_of_cons, elem_of_nil.
  intros [?|[?|[]]]; discriminate.
Defined.

(** X8. Subscribing or unsubscribing on one topic leaves the callbacks of
    every other topic as they are. *)
Theorem topics_are_independent t t' cb s :
  t ≠ t' →
  listeners (subscribe t' cb s).1 !! t = listeners s !! t ∧
  listeners (unsubscribe t' cb s).1 !! t = listeners s !! t.
Proof.
  intros Hne. unfold subscribe, unsubscribe, modify. simpl. split.
  - unfold register. rewrite lookup_alter_ne by done.
    case_decide; [done|]. by rewrite lookup_insert_ne.
  - unfold unregister. destruct (listeners s !! t') as [l|]; [|done].
    case_match; [|done]. by rewrite lookup_alter_ne.
Qed.

Lemma topics_are_independent_witness :
  listeners (subscribe "task_update" 4 s_two_subscribers).1 !! "agent_status"
    = Some [0; 1] ∧
  listeners (unsubscribe "task_update" 0 s_two_subscribers).1 !! "agent_status"
    = Some [0; 1].
Proof.
  exact (topics_are_independent "agent_status" "task_update" _ s_two_subscribers
           ltac:(discriminate)).
Defined.

(** ** Frames *)

Lemma forEach_keeps_connection behaviour topic data : ∀ n k s,
  ws (forEach behaviour n k topic data s).1 = ws s ∧
  sockets (forEach behaviour n k topic data s).1 = sockets s ∧
  timers (forEach behaviour n k topic data s).1 = timers s ∧
  console (forEach behaviour n k topic data s).1 = console s.
Proof.
  induction n as [|n IH]; intros k s; [done|].
  cbn [forEach]. destruct (listeners s !! topic ≫= (λ l, l !! k)) as [f|]; [|apply IH].
  rewrite Eff_bind_apply, invoke_spec.
  destruct (raises (behaviour f data)); [done|].
  destruct (IH (S k) (invoke_state behaviour data s f)) as (-> & -> & -> & ->). done.
Qed.

Lemma onmessage_keeps_connection JSON_parse behaviour raw s :
  ws (onmessage JSON_parse behaviour raw s).1 = ws s ∧
  sockets (onmessage JSON_parse behaviour raw s).1 = sockets s ∧
  timers (onmessage JSON_parse behaviour raw s).1 = timers s.
Proof.
  unfold onmessage, try_catch. rewrite !Eff_bind_apply. unfold await.
  destruct (JSON_parse raw) as [data|e]; [|done].
  rewrite Eff_bind_apply. destruct (get_type data) as [ty|e]; [|done].
  unfold dispatch. destruct ty as [[| | |topic| |]|]; try done.
  destruct (listeners s !! topic) as [l|]; [|done].
  destruct (forEach_keeps_connection behaviour topic data (length l) 0 s)
    as (Hws & Hsockets & Htimers & _).
  by destruct (forEach behaviour (length l) 0 topic data s) as [s' [[]|e]].
Qed.

(** X9. A frame calls a callback only if its text parses to a value whose
    [type] is a string with callbacks registered. Every other frame leaves
    the registry, the connection and the timers as they are and calls
    nothing; a console error is written when the text does not parse or
    parses to null, and nothing at all when the type is missing, is not a
    string, or has no callbacks. *)
Theorem unroutable_frame_calls_nothing JSON_parse behaviour raw s :
  (∀ data topic l,
     JSON_parse raw = Normal data →
     get_type data = Normal (Some (JString topic)) →
     listeners s !! topic = Some l → l = []) →
  (onmessage JSON_parse behaviour raw s).2 = Normal tt ∧
  invoked (onmessage JSON_parse behaviour raw s).1 = invoked s ∧
  listeners (onmessage JSON_parse behaviour raw s).1 = listeners s ∧
  ws (onmessage JSON_parse behaviour raw s).1 = ws s ∧
  sockets (onmessage JSON_parse behaviour raw s).1 = sockets s ∧
  timers (onmessage JSON_parse behaviour raw s).1 = timers s ∧
  console (onmessage JSON_parse behaviour raw s).1 =
    console s ++
    match JSON_parse raw with
    | Throw e => [console_error "Error parsing WebSocket message:" (Some e)]
    | Normal data =>
        match get_type data with
        | Throw e => [console_error "Error parsing WebSocket message:" (Some e)]
        | Normal _ => []
        end
    end.
Proof.
  intros Hroute. unfold onmessage, try_catch. rewrite !Eff_bind_apply. unfold await.
  destruct (JSON_parse raw) as [data|e]; [|done].
  rewrite Eff_bind_apply. destruct (get_type data) as [ty|e] eqn:Hty; [|done].
  rewrite app_nil_r.
  unfold dispatch. destruct ty as [[| | |topic| |]|]; try done.
  destruct (listeners s !! topic) as [l|] eqn:Hl; [|done].
  by rewrite (Hroute data topic l eq_refl Hty Hl).
Qed.

Lemma unroutable_frame_calls_nothing_witness :
  onmessage sample_parse throwing_callbacks "not json" s_two_subscribers =
    (add_console (console_error "Error parsing WebSocket message:"
                    (Some (ErrorObj "Unexpected token in JSON")))
       s_two_subscribers, Normal tt) ∧
  invoked (onmessage sample_parse throwing_callbacks "not json"
             s_two_subscribers).1 = [].
Proof.
  destruct (unroutable_frame_calls_nothing sample_parse throwing_callbacks
              "not json" s_two_subscribers) as (_ & Hinvoked & _).
  { intros data topic l Hparse. discriminate Hparse. }
  split; [reflexivity|exact Hinvoked].
Defined.

(** ** Sockets and timers *)

Lemma count_insert {A} (P : A → Prop) `{∀ x, Decision (P x)} (l : list A) : ∀ i r x,
  l !! i = Some r →
  length (filter P (<[i:=x]> l)) + (if decide (P r) then 1 else 0) =
  length (filter P l) + (if decide (P x) then 1 else 0).
Proof.
  induction l as [|a l IH]; intros [|i] r x Hi; simplify_eq/=.
  - rewrite !filter_cons. repeat case_decide; simpl; lia.
  - rewrite !filter_cons. specialize (IH i r x Hi).
    repeat case_decide; simpl; lia.
Qed.

Lemma live_alter_start_closing l : ∀ i,
  length (filter (λ r, r ≠ CLOSED) (alter start_closing i l)) =
  length (filter (λ r, r ≠ CLOSED) l).
Proof.
  unfold alter.
  induction l as [|a l IH]; intros [|i]; simpl; try done.
  - rewrite !filter_cons. destruct a; simpl; repeat case_decide; done.
  - rewrite !filter_cons. case_decide; simpl; by rewrite IH.
Qed.

Lemma step_accounting JSON_parse behaviour ev s s' :
  step JSON_parse behaviour ev s = Some s' →
  live s' + timers s' = live s + timers s + connects [ev] ∧
  opened s' = opened s + connects [ev] + elapsed [ev] ∧
  (current_is_newest s → current_is_newest s').
Proof.
  unfold step. destruct (enabled ev s) eqn:Hen; [|done]. intros [= <-].
  unfold current_is_newest, live, opened, connects, elapsed.
  destruct ev as [| |t cb|t cb|sock|sock raw|sock|sock|]; simpl in *;
    rewrite ?filter_cons, ?filter_nil; simpl.
  - rewrite filter_app, !length_app. simpl. split_and!; [lia|lia|].
    intros _. right. split; [lia|]. f_equal. lia.
  - unfold disconnect. destruct (ws s) as [sock|] eqn:Hws; simpl.
    + rewrite live_alter_start_closing, length_alter. split_and!; [lia|lia|auto].
    + rewrite Hws. split_and!; [lia|lia|auto].
  - split_and!; [lia|lia|done].
  - split_and!; [lia|lia|done].
  - apply bool_decide_eq_true in Hen.
    pose proof (count_insert (λ r, r ≠ CLOSED) (sockets s) sock CONNECTING OPEN Hen) as Hc.
    rewrite !decide_True in Hc by done.
    rewrite length_insert. split_and!; [lia|lia|done].
  - destruct (onmessage_keeps_connection JSON_parse behaviour raw s)
      as (-> & -> & ->). split_and!; [lia|lia|done].
  - split_and!; [lia|lia|done].
  - apply bool_decide_eq_true in Hen as [[r Hr] Hopen].
    pose proof (count_insert (λ r, r ≠ CLOSED) (sockets s) sock r CLOSED Hr) as Hc.
    rewrite decide_True, decide_False in Hc by (try congruence; by intros ?).
    rewrite length_insert. split_and!; [lia|lia|done].
  - apply bool_decide_eq_true in Hen.
    rewrite filter_app, !length_app. simpl. split_and!; [lia|lia|].
    intros _. right. split; [lia|]. f_equal. lia.
Qed.

Lemma run_accounting JSON_parse behaviour evs : ∀ s s',
  run JSON_parse behaviour evs s = Some s' →
  live s' + timers s' = live s + timers s + connects evs ∧
  opened s' = opened s + connects evs + elapsed evs ∧
  (current_is_newest s → current_is_newest s').
Proof.
  induction evs as [|ev evs IH]; intros s s' Hrun; simpl in Hrun.
  - injection Hrun as <-. unfold connects, elapsed. simpl. split_and!; [lia|lia|done].
  - destruct (step JSON_parse behaviour ev s) as [s1|] eqn:Hstep; [|done].
    simpl in Hrun.
    destruct (step_accounting _ _ _ _ _ Hstep) as (H1 & H2 & H3).
    destruct (IH _ _ Hrun) as (H4 & H5 & H6).
    unfold connects, elapsed in *. rewrite !(filter_cons _ ev) in *.
    rewrite !filter_nil in *.
    split_and!; [| |auto];
      repeat case_decide; simpl in *; lia.
Qed.

(** X10. Along every sequence of events, the sockets that have not closed plus
    the pending reconnect timers grow by one with each [connect()] of the
    caller and never shrink: every socket that closes is replaced, through
    its timer, by a new one. The service constructs one socket per
    [connect()] of the caller and one per elapsed timer. Once the caller
    has connected there is always a socket that is not closed or a timer
    about to open one. *)
Theorem every_closed_socket_is_replaced JSON_parse behaviour evs s s' :
  run JSON_parse behaviour evs s = Some s' →
  live s' + timers s' = live s + timers s + connects evs ∧
  opened s' = opened s + connects evs + elapsed evs ∧
  (0 < connects evs → 0 < live s' + timers s').
Proof.
  intros Hrun. destruct (run_accounting _ _ _ _ _ Hrun) as (Hlive & Hopened & _).
  split_and!; [done|done|lia].
Qed.

Lemma every_closed_socket_is_replaced_witness :
  live s_reconnected + timers s_reconnected =
    live initial + timers initial + connects reconnecting ∧
  opened s_reconnected = opened initial + connects reconnecting + elapsed reconnecting ∧
  (0 < connects reconnecting → 0 < live s_reconnected + timers s_reconnected).
Proof.
  apply (every_closed_socket_is_replaced sample_parse plain_callbacks).
  vm_compute. reflexivity.
Defined.

(** X11. In every state the service reaches from a fresh instance, [this.ws] is
    null or the socket constructed last: a socket opened by an earlier
    [connect()] is out of reach, [disconnect()] cannot close it. *)
Theorem current_socket_is_newest JSON_parse behaviour evs s' :
  run JSON_parse behaviour evs initial = Some s' → current_is_newest s'.
Proof.
  intros Hrun. destruct (run_accounting _ _ _ _ _ Hrun) as (_ & _ & Hnew).
  apply Hnew. by left.
Qed.

Lemma current_socket_is_newest_witness : current_is_newest s_second_closing.
Proof.
  apply (current_socket_is_newest sample_parse plain_callbacks
           [CallConnect; CallConnect; SocketOpen 0; SocketOpen 1; CallDisconnect]).
  vm_compute. reflexivity.
Defined.

End WebSocketMoreFacts.

(** * Facts about the HTTP client *)

Module HttpClientFacts.
Import HttpClient.

(** X12. A request of a signed-in client carries the stored token. When the
    answer is a 401, the caller still gets that very error, the browser is
    sent to the login page, the token is removed from the storage, and no
    later request gets an Authorization header from the interceptor. *)
Theorem unauthorized_response_signs_out transport config b error token :
  localStorage b !! "authToken" = Some token → token ≠ "" →
  transport (onRequest config b) = inr error →
  status <$> response error = Some 401%Z →
  headers (onRequest config b) !! "Authorization" = Some ("Bearer " +:+ token) ∧
  (request transport config b).2 = inr error ∧
  location_href (request transport config b).1 = Some "/login" ∧
  localStorage (request transport config b).1 = delete "authToken" (localStorage b) ∧
  ∀ config', onRequest config' (request transport config b).1 = config'.
Proof.
  intros Htoken Hnonempty Hanswer H401. split.
  - unfold onRequest. rewrite Htoken, decide_False by done. simpl.
    apply lookup_insert_eq.
  - unfold request. rewrite Hanswer. unfold onResponseError.
    rewrite decide_True by done. simpl. split_and!; try done.
    intros config'. unfold onRequest. simpl. by rewrite lookup_delete_eq.
Qed.

Lemma unauthorized_response_signs_out_witness :
  headers (onRequest get_agents signed_in) !! "Authorization" = Some "Bearer s3cr3t" ∧
  localStorage (request (λ _, inr unauthorized) get_agents signed_in).1
    = {["theme" := "dark"]} ∧
  onRequest get_agents (request (λ _, inr unauthorized) get_agents signed_in).1
    = get_agents.
Proof.
  destruct (unauthorized_response_signs_out (λ _, inr unauthorized) get_agents
              signed_in unauthorized "s3cr3t" eq_refl ltac:(discriminate)
              eq_refl eq_refl)
    as (Hheader & _ & _ & Hstorage & Hlater).
  split; [exact Hheader|]. split; [|apply Hlater].
  rewrite Hstorage. reflexivity.
Defined.

(** X13. The client passes on what the transport answers, response or error,
    unchanged. It never writes a key of the storage other than the token,
    and unless the answer is a 401 it leaves storage and location alone. *)
Theorem client_only_reacts_to_401 transport config b :
  (request transport config b).2 = transport (onRequest config b) ∧
  (∀ key, key ≠ "authToken" →
     localStorage (request transport config b).1 !! key = localStorage b !! key) ∧
  ((∀ error, transport (onRequest config b) = inr error →
      status <$> response error ≠ Some 401%Z) →
   (request transport config b).1 = b).
Proof.
  unfold request. destruct (transport (onRequest config b)) as [r|error]; simpl.
  - done.
  - unfold onResponseError. case_decide as H401; simpl.
    + split_and!; [done| |].
      * intros key Hkey. by rewrite lookup_delete_ne.
      * intros Hnot. by destruct (Hnot error eq_refl).
    + done.
Qed.

Lemma client_only_reacts_to_401_witness :
  request (λ _, inr network_error) get_agents signed_in = (signed_in, inr network_error).
Proof.
  destruct (client_only_reacts_to_401 (λ _, inr network_error) get_agents signed_in)
    as (Hanswer & _ & Hsame).
  rewrite (surjective_pairing (request _ _ _)), Hanswer, Hsame; [reflexivity|].
  intros error [= <-]. discriminate.
Defined.

End HttpClientFacts.

(** * Facts about the single-service calls *)

Module ServiceApiFacts.
Import ServiceApi.

Lemma own_absent table key : key ∉ table.*1 → own table key = None.
Proof.
  induction table as [|[k v] table IH]; simpl; [done|].
  rewrite not_elem_of_cons. intros [Hne Hrest].
  rewrite decide_False by done. auto.
Qed.

(** X14. Asking for the health or the metrics of a service that is not in the
    table of URLs fails with "Unknown service: <name>" before any request
    is made, as long as the name is not a property every object inherits.
    [getServiceHealth] does not know the API gateway, [getMetrics] does. *)
Theorem unknown_service_sends_nothing inherited service requests :
  inherited service = false →
  (∀ answer, service ∉ ["agent-manager"; "agent-runtime"] →
     getServiceHealth inherited answer service requests =
       (requests, Throw (ErrorObj ("Unknown service: " +:+ service)))) ∧
  (∀ answer, service ∉ ["api-gateway"; "agent-manager"; "agent-runtime"] →
     getMetrics inherited answer service requests =
       (requests, Throw (ErrorObj ("Unknown service: " +:+ service)))).
Proof.
  intros Hplain. split; intros answer Hunknown.
  - unfold getServiceHealth, property.
    rewrite (own_absent healthUrls service) by done. by rewrite Hplain.
  - unfold getMetrics, property.
    rewrite (own_absent metricsUrls service) by done. by rewrite Hplain.
Qed.

Lemma unknown_service_sends_nothing_witness :
  getServiceHealth standard_prototype (λ _, Normal Dashboard.healthy) "api-gateway" []
    = ([], Throw (ErrorObj "Unknown service: api-gateway")) ∧
  getMetrics standard_prototype (λ _, Normal "up 1") "api-gateway" []
    = ([Url "http://localhost:8080/metrics"], Normal "up 1").
Proof.
  destruct (unknown_service_sends_nothing standard_prototype "api-gateway" []
              eq_refl) as [Hhealth _].
  split; [|reflexivity].
  apply Hhealth. rewrite !elem_of_cons, elem_of_nil.
  intros [?|[?|[]]]; discriminate.
Defined.

End ServiceApiFacts.

(** * Facts about the Agents page *)

Module AgentsPageFacts.
Import AgentsPage.

(** What [loadAgents] leaves behind. *)
Lemma loadAgents_spec api s :
  loadAgents api s =
    ({| agents := match getAgents api with
                  | Normal data => data
                  | Throw _ => agents s
                  end;
        loading := false;
        error := match getAgents api with
                 | Normal _ => None
                 | Throw err => Some (message_or "Failed to load agents" err)
                 end;
        createDialogOpen := createDialogOpen s;
        newAgent := newAgent s;
        requests := requests s ++ [GetAgents] |}, Normal tt).
Proof.
  unfold loadAgents, try_finally, try_catch.
  unfold mbind, Eff_bind, bind, await, setLoading, setError, send, modify.
  by destruct (getAgents api).
Qed.

(** X15. Loading the agents sends one request and always ends with the page
    not loading. If the request fails the list shown before stays and the
    error is set; if it succeeds the list is replaced and an earlier error
    is cleared. The dialog and the form are not touched. *)
Theorem loadAgents_outcome api s :
  (loadAgents api s).2 = Normal tt ∧
  loading (loadAgents api s).1 = false ∧
  requests (loadAgents api s).1 = requests s ++ [GetAgents] ∧
  createDialogOpen (loadAgents api s).1 = createDialogOpen s ∧
  newAgent (loadAgents api s).1 = newAgent s ∧
  (∀ data, getAgents api = Normal data →
     agents (loadAgents api s).1 = data ∧ error (loadAgents api s).1 = None) ∧
  (∀ err, getAgents api = Throw err →
     agents (loadAgents api s).1 = agents s ∧
     error (loadAgents api s).1 = Some (message_or "Failed to load agents" err)).
Proof.
  rewrite loadAgents_spec. simpl. split_and!; try done.
  - by intros data ->.
  - by intros err ->.
Qed.

Lemma loadAgents_outcome_witness :
  agents (loadAgents obliging editing).1 = [Dashboard.A1; Dashboard.A2] ∧
  error (loadAgents obliging editing).1 = None ∧
  loading (loadAgents obliging editing).1 = false.
Proof.
  destruct (loadAgents_outcome obliging editing)
    as (_ & Hloading & _ & _ & _ & Hok & _).
  destruct (Hok _ eq_refl) as [Hagents Herror].
  split; [exact Hagents|]. split; [exact Herror|exact Hloading].
Defined.

(** X16. When the backend refuses to create the agent, the dialog stays open
    with everything the user typed, the list is not reloaded, and the
    error is shown; the only request sent is the creation. *)
Theorem failed_creation_keeps_the_form api s err :
  createAgent api (newAgent s) = Throw err →
  handleCreateAgent api s =
    ({| agents := agents s; loading := loading s;
        error := Some (message_or "Failed to create agent" err);
        createDialogOpen := createDialogOpen s; newAgent := newAgent s;
        requests := requests s ++ [CreateAgent (newAgent s)] |}, Normal tt).
Proof.
  intros Hcreate. unfold handleCreateAgent, try_catch.
  unfold mbind, Eff_bind, bind, await, send, setError, modify.
  by rewrite Hcreate.
Qed.

Lemma failed_creation_keeps_the_form_witness :
  createDialogOpen (handleCreateAgent refusing editing).1 = true ∧
  newAgent (handleCreateAgent refusing editing).1 = draft ∧
  error (handleCreateAgent refusing editing).1
    = Some "Request failed with status code 422" ∧
  requests (handleCreateAgent refusing editing).1 = [GetAgents; CreateAgent draft].
Proof.
  rewrite (failed_creation_keeps_the_form refusing editing
             (ErrorObj "Request failed with status code 422") eq_refl).
  repeat split.
Defined.

(** X17. When the agent is created, the dialog is closed, the form is blank
    again and the list is reloaded, with the creation and then the reload
    as the two requests. What the page shows afterwards is decided by the
    reload alone: a failing reload reports that the agents could not be
    loaded, never that the agent could not be created. *)
Theorem creation_closes_dialog_and_reloads api s created :
  createAgent api (newAgent s) = Normal created →
  handleCreateAgent api s =
    ({| agents := match getAgents api with
                  | Normal data => data
                  | Throw _ => agents s
                  end;
        loading := false;
        error := match getAgents api with
                 | Normal _ => None
                 | Throw err => Some (message_or "Failed to load agents" err)
                 end;
        createDialogOpen := false; newAgent := blank;
        requests := requests s ++ [CreateAgent (newAgent s); GetAgents] |},
     Normal tt).
Proof.
  intros Hcreate. unfold handleCreateAgent, try_catch.
  unfold mbind, Eff_bind, bind, await, send, setCreateDialogOpen, setNewAgent, modify.
  rewrite Hcreate, loadAgents_spec. simpl. by rewrite <- app_assoc.
Qed.

Lemma creation_closes_dialog_and_reloads_witness :
  createDialogOpen (handleCreateAgent obliging editing).1 = false ∧
  newAgent (handleCreateAgent obliging editing).1 = blank ∧
  agents (handleCreateAgent obliging editing).1 = [Dashboard.A1; Dashboard.A2] ∧
  requests (handleCreateAgent obliging editing).1
    = [GetAgents; CreateAgent draft; GetAgents].
Proof.
  rewrite (creation_closes_dialog_and_reloads obliging editing Dashboard.A2 eq_refl).
  repeat split.
Defined.

(** X18. Deleting asks first. If the user declines, nothing is sent and
    nothing changes. If the backend refuses, the agent stays in the list,
    which is not reloaded, and the error is shown. If the agent is
    deleted, the list is reloaded. *)
Theorem deletion_asks_first api id s :
  handleDeleteAgent api false id s = (s, Normal tt) ∧
  (∀ err, deleteAgent api id = Throw err →
     handleDeleteAgent api true id s =
       ({| agents := agents s; loading := loading s;
           error := Some (message_or "Failed to delete agent" err);
           createDialogOpen := createDialogOpen s; newAgent := newAgent s;
           requests := requests s ++ [DeleteAgent id] |}, Normal tt)) ∧
  (deleteAgent api id = Normal tt →
     handleDeleteAgent api true id s =
       ({| agents := match getAgents api with
                     | Normal data => data
                     | Throw _ => agents s
                     end;
           loading := false;
           error := match getAgents api with
                    | Normal _ => None
                    | Throw err => Some (message_or "Failed to load agents" err)
                    end;
           createDialogOpen := createDialogOpen s; newAgent := newAgent s;
           requests := requests s ++ [DeleteAgent id; GetAgents] |}, Normal tt)).
Proof.
  split_and!.
  - done.
  - intros err Hdelete. unfold handleDeleteAgent, try_catch.
    unfold mbind, Eff_bind, bind, await, send, setError, modify.
    by rewrite Hdelete.
  - intros Hdelete. unfold handleDeleteAgent, try_catch.
    unfold mbind, Eff_bind, bind, await, send, modify.
    rewrite Hdelete, loadAgents_spec. simpl. by rewrite <- app_assoc.
Qed.

Lemma deletion_asks_first_witness :
  handleDeleteAgent refusing false "a1" editing = (editing, Normal tt) ∧
  agents (handleDeleteAgent refusing true "a1" editing).1 = [Dashboard.A1] ∧
  error (handleDeleteAgent refusing true "a1" editing).1
    = Some "Request failed with status code 404" ∧
  requests (handleDeleteAgent obliging true "a1" editing).1
    = [GetAgents; DeleteAgent "a1"; GetAgents].
Proof.
  destruct (deletion_asks_first refusing "a1" editing) as (Hdeclined & Hrefused & _).
  destruct (deletion_asks_first obliging "a1" editing) as (_ & _ & Hdeleted).
  split; [exact Hdeclined|].
  rewrite (Hrefused (ErrorObj "Request failed with status code 404") eq_refl).
  rewrite (Hdeleted eq_refl). repeat split.
Defined.

End AgentsPageFacts.

(** * Facts about the capabilities field *)

Module CapabilitiesFacts.
Import Capabilities.

Section ParseFacts.
Context {char : Type} `{EqDecision char}.
Variable white : char → bool.
Variable comma : char.

#[local] Abbreviation split := (split comma).
#[local] Abbreviation trimStart := (trimStart white).
#[local] Abbreviation trimEnd := (trimEnd white).
#[local] Abbreviation trim := (trim white).
#[local] Abbreviation parse_capabilities := (parse_capabilities white comma).
#[local] Abbreviation clean := (clean white comma).

Lemma split_not_nil value : split value ≠ [].
Proof.
  induction value as [|c rest IH]; simpl; [done|].
  case_decide; [done|]. by destruct (split rest).
Qed.

Lemma split_plain piece : comma ∉ piece → split piece = [piece].
Proof.
  induction piece as [|c piece IH]; simpl; [done|].
  rewrite not_elem_of_cons. intros [Hne Hrest].
  rewrite decide_False by done. by rewrite IH.
Qed.

Lemma split_app_comma piece rest :
  comma ∉ piece → split (piece ++ comma :: rest) = piece :: split rest.
Proof.
  induction piece as [|c piece IH]; simpl.
  - intros _. by rewrite decide_True.
  - rewrite not_elem_of_cons. intros [Hne Hrest].
    rewrite decide_False by done. by rewrite IH.
Qed.

(** The pieces hold the characters of the value other than the commas. *)
Lemma split_Forall (Q : char → Prop) value :
  Forall (Forall Q) (split value) ↔ Forall (λ c, Q c ∨ c = comma) value.
Proof.
  induction value as [|c rest IH]; simpl.
  - split; intros _; repeat constructor.
  - rewrite Forall_cons, <- IH. case_decide as Hc.
    + rewrite Forall_cons. subst c. split; [intros [_ ?]|intros [_ ?]]; auto.
    + pose proof (split_not_nil rest) as Hne.
      destruct (split rest) as [|piece pieces]; [done|].
      rewrite !Forall_cons. split.
      * intros [[Hq Hpiece] Hpieces]. auto.
      * intros [[Hq|Heq] [Hpiece Hpieces]]; [auto|done].
Qed.

Lemma split_no_comma value : Forall (λ piece, comma ∉ piece) (split value).
Proof.
  induction value as [|c rest IH]; simpl.
  - repeat constructor. apply not_elem_of_nil.
  - case_decide as Hc.
    + constructor; [apply not_elem_of_nil|done].
    + pose proof (split_not_nil rest) as Hne.
      destruct (split rest) as [|piece pieces]; [done|].
      apply Forall_cons in IH as [Hpiece Hpieces].
      constructor; [|done]. rewrite not_elem_of_cons. auto.
Qed.

Lemma trimStart_elem_of s c : c ∈ trimStart s → c ∈ s.
Proof.
  induction s as [|a s IH]; simpl; [done|].
  destruct (white a); [|done]. intros Hc. right. auto.
Qed.

Lemma trimStart_nil s : trimStart s = [] ↔ Forall (λ c, white c = true) s.
Proof.
  induction s as [|a s IH]; simpl.
  - split; [constructor|done].
  - rewrite Forall_cons. destruct (white a) eqn:Ha.
    + rewrite IH. tauto.
    + split; [done|]. by intros [? _].
Qed.

Lemma trimStart_head s c : head (trimStart s) = Some c → white c = false.
Proof.
  induction s as [|a s IH]; simpl; [done|].
  destruct (white a) eqn:Ha; [done|]. by intros [= <-].
Qed.

Lemma trimStart_id s : (∀ c, head s = Some c → white c = false) → trimStart s = s.
Proof.
  destruct s as [|a s]; simpl; [done|]. intros Hhead.
  by rewrite (Hhead a eq_refl).
Qed.

Lemma trimStart_white_prefix pre s :
  Forall (λ c, white c = true) pre → trimStart (pre ++ s) = trimStart s.
Proof.
  induction 1 as [|a pre Ha Hpre IH]; simpl; [done|]. by rewrite Ha.
Qed.

Lemma trimStart_snoc s c : white c = false → trimStart (s ++ [c]) = trimStart s ++ [c].
Proof.
  intros Hc. induction s as [|a s IH]; simpl.
  - by rewrite Hc.
  - by destruct (white a).
Qed.

Lemma trimEnd_cons c s : white c = false → trimEnd (c :: s) = c :: trimEnd s.
Proof.
  intros Hc. unfold Capabilities.trimEnd.
  by rewrite reverse_cons, trimStart_snoc, reverse_snoc.
Qed.

Lemma trimEnd_id s : (∀ c, last s = Some c → white c = false) → trimEnd s = s.
Proof.
  intros Hlast. unfold Capabilities.trimEnd. rewrite trimStart_id.
  - apply reverse_involutive.
  - intros c. rewrite head_reverse. apply Hlast.
Qed.

Lemma trim_elem_of s c : c ∈ trim s → c ∈ s.
Proof.
  unfold Capabilities.trim, Capabilities.trimEnd. rewrite elem_of_reverse.
  intros Hc%trimStart_elem_of. rewrite elem_of_reverse in Hc.
  by apply trimStart_elem_of.
Qed.

Lemma trim_nil s : trim s = [] ↔ Forall (λ c, white c = true) s.
Proof.
  rewrite <- trimStart_nil. unfold Capabilities.trim.
  destruct (trimStart s) as [|a t] eqn:Hs; [done|].
  assert (white a = false) as Ha by (apply (trimStart_head s); by rewrite Hs).
  by rewrite trimEnd_cons.
Qed.

Lemma trim_ends s :
  (∀ c, head (trim s) = Some c → white c = false) ∧
  (∀ c, last (trim s) = Some c → white c = false).
Proof.
  unfold Capabilities.trim. split.
  - destruct (trimStart s) as [|a t] eqn:Hs; [done|].
    assert (white a = false) as Ha by (apply (trimStart_head s); by rewrite Hs).
    rewrite trimEnd_cons by done. by intros c [= <-].
  - unfold Capabilities.trimEnd. intros c. rewrite last_reverse.
    apply trimStart_head.
Qed.

Lemma trim_clean pre cap :
  Forall (λ c, white c = true) pre → clean cap → trim (pre ++ cap) = cap.
Proof.
  intros Hpre (_ & _ & Hhead & Hlast). unfold Capabilities.trim.
  rewrite trimStart_white_prefix, trimStart_id by done. by apply trimEnd_id.
Qed.

(** X19. Whatever is typed into the field, every capability stored is not
    empty, contains no comma and neither starts nor ends with white
    space. *)
Theorem parsed_capabilities_are_clean value :
  Forall clean (parse_capabilities value).
Proof.
  unfold Capabilities.parse_capabilities. apply Forall_forall. intros cap.
  rewrite list_elem_of_filter, list_elem_of_fmap.
  intros (Hne & piece & -> & Hpiece).
  split_and!; [done| |apply trim_ends|apply trim_ends].
  intros Hcomma%trim_elem_of.
  pose proof (split_no_comma value) as Hall. rewrite Forall_forall in Hall.
  by apply (Hall piece).
Qed.

(** X20. No capability is stored exactly when the text consists of commas and
    white space only (the empty text included). *)
Theorem no_capabilities_iff_blank value :
  parse_capabilities value = [] ↔
  Forall (λ c, white c = true ∨ c = comma) value.
Proof.
  rewrite <- split_Forall. unfold Capabilities.parse_capabilities.
  induction (split value) as [|piece pieces IH]; simpl.
  - split; [constructor|done].
  - rewrite filter_cons, Forall_cons, <- IH, <- trim_nil.
    case_decide as Hpiece.
    + split; [done|]. by intros [? _].
    + tauto.
Qed.

Lemma split_join pre ws caps :
  white comma = false →
  Forall (λ c, white c = true) pre → Forall (λ c, white c = true) ws →
  Forall clean caps → caps ≠ [] →
  trim <$> split (pre ++ join (comma :: ws) caps) = caps.
Proof.
  intros Hcomma Hpre Hws Hcaps. revert pre Hpre.
  assert (∀ l, Forall (λ c, white c = true) l → comma ∉ l) as Hfree.
  { intros l Hl Hin. rewrite Forall_forall in Hl. specialize (Hl _ Hin). congruence. }
  induction Hcaps as [|cap caps Hcap Hcaps IH]; intros pre Hpre Hne; [done|].
  destruct caps as [|cap2 caps].
  - simpl. rewrite split_plain.
    + simpl. by rewrite trim_clean.
    + rewrite not_elem_of_app. split; [by apply Hfree|apply Hcap].
  - cbn [join]. rewrite (app_assoc pre cap). change ((comma :: ws) ++ ?l) with (comma :: ws ++ l).
    rewrite split_app_comma.
    + rewrite fmap_cons, trim_clean by done. f_equal. by apply IH.
    + rewrite not_elem_of_app. split; [by apply Hfree|apply Hcap].
Qed.

Lemma filter_clean caps :
  Forall clean caps → filter (λ cap, cap ≠ []) caps = caps.
Proof.
  induction 1 as [|cap caps Hcap Hcaps IH]; [done|].
  rewrite filter_cons, decide_True by apply Hcap. by rewrite IH.
Qed.

(** X21. Typing capabilities separated by a comma, with or without white
    space behind it, stores exactly these capabilities in this order,
    provided each of them is not empty, has no comma and has no white
    space at its ends. *)
Theorem typed_capabilities_are_stored ws caps :
  white comma = false →
  Forall (λ c, white c = true) ws →
  Forall clean caps →
  parse_capabilities (join (comma :: ws) caps) = caps.
Proof.
  intros Hcomma Hws Hcaps. unfold Capabilities.parse_capabilities.
  destruct (decide (caps = [])) as [->|Hne]; [done|].
  pose proof (split_join [] ws caps Hcomma) as Hsplit. simpl in Hsplit.
  rewrite Hsplit by done. by apply filter_clean.
Qed.

End ParseFacts.

Lemma sample_capabilities_clean :
  Forall (clean js_white js_comma) [code_generation; data_analysis].
Proof.
  rewrite !Forall_cons, Forall_nil. unfold clean.
  split_and!;
    try first [ done
          | intros c Hc; vm_compute in Hc; injection Hc as <-; reflexivity ].
  - apply (bool_decide_eq_false_1 (js_comma ∈ code_generation)). reflexivity.
  - apply (bool_decide_eq_false_1 (js_comma ∈ data_analysis)). reflexivity.
Defined.

Lemma typed_capabilities_are_stored_witness :
  parse_capabilities js_white js_comma
    (join [js_comma; 32%N] [code_generation; data_analysis])
  = [code_generation; data_analysis].
Proof.
  apply (typed_capabilities_are_stored js_white js_comma [32%N]).
  - reflexivity.
  - repeat constructor.
  - exact sample_capabilities_clean.
Defined.

End CapabilitiesFacts.
